(** * PhysicsFS: the search path, the write directory and the error channel

    A shallow embedding of [physfs.c].  The process-wide variables of the C
    file ([initialized], [errorMessages], [searchPath], [baseDir],
    [writeDir], [allowSymLinks], the static [retval] of
    [PHYSFS_getUserDir]) are the fields of one record that every function
    takes and returns.  The [SearchDirInfo] list lives in a store indexed by
    address, so that [free] and stale pointers are visible; the [ErrMsg]
    list, which [physfs.c] only ever extends at its head and updates in
    place, is the sequence of its nodes from the head.  Loops whose
    termination depends on the store run on fuel.  A function that can set
    an error takes the identifier [t] of the calling thread, the value of
    [__PHYSFS_platformGetThreadID]. *)

From Stdlib Require Import Ascii.
From stdpp Require Import base gmap strings list.

Open Scope string_scope.
Open Scope Z_scope.

(** ** Error identifiers *)

(** Modelled from the spec: the [ERR_*] macros come from
    [physfs_internal.h], which [physfs.c] includes and the repository does
    not hold; the identifiers are those of the spec's section on external
    interfaces, surfaced verbatim. *)
Definition ERR_IS_INITIALIZED : string := "IsInitialized".
Definition ERR_NOT_INITIALIZED : string := "NotInitialized".
Definition ERR_INVALID_ARGUMENT : string := "InvalidArgument".
Definition ERR_FILES_OPEN_WRITE : string := "FilesStillOpenForWrite".
Definition ERR_NO_WRITE_DIR : string := "NoWriteDir".
Definition ERR_NO_DIR_CREATE : string := "NoDirCreate".
Definition ERR_OUT_OF_MEMORY : string := "OutOfMemory".
Definition ERR_NOT_IN_SEARCH_PATH : string := "NotInSearchPath".
Definition ERR_UNSUPPORTED_ARCHIVE : string := "UnsupportedArchive".

(** ** Data *)

(** [struct __PHYSFS_ERRMSGTYPE__]; the [next] field is the order of the
    list that holds the nodes. *)
Record ErrMsg : Type := mkErrMsg {
  tid : Z;
  errorAvailable : Z;
  errorString : string
}.

(** Addresses of [SearchDirInfo] blocks, and handles of opened readers. *)
Abbreviation addr := nat (only parsing).
Abbreviation DirReader := nat (only parsing).

(** [struct __PHYSFS_SEARCHDIRINFO__].  A null [next] is [None]. *)
Record SearchDirInfo : Type := mkSearchDirInfo {
  dirName : string;
  reader : DirReader;
  next : option addr
}.

(** What the library asks of the host file system, most recent call first. *)
Inductive host_call : Type :=
  | HostCreateDirs (path : string)
  | HostRemove (path : string).

(** The globals of [physfs.c], and the part of the world they point into. *)
Record physfs_state : Type := mkState {
  initialized : Z;
  errorMessages : list ErrMsg;
  searchPath : option addr;
  baseDir : option string;
  writeDir : option string;
  allowSymLinks : Z;
  openWriteCount : Z;
  userDir_retval : option string;
  sdi_heap : gmap addr SearchDirInfo;
  openReaders : gset DirReader;
  malloc_plan : list bool;
  host_trace : list host_call
}.

Definition set_initialized (v : Z) (s : physfs_state) : physfs_state :=
  mkState v (errorMessages s) (searchPath s) (baseDir s) (writeDir s)
    (allowSymLinks s) (openWriteCount s) (userDir_retval s) (sdi_heap s)
    (openReaders s) (malloc_plan s) (host_trace s).

Definition set_errorMessages (v : list ErrMsg) (s : physfs_state) : physfs_state :=
  mkState (initialized s) v (searchPath s) (baseDir s) (writeDir s)
    (allowSymLinks s) (openWriteCount s) (userDir_retval s) (sdi_heap s)
    (openReaders s) (malloc_plan s) (host_trace s).

Definition set_searchPath (v : option addr) (s : physfs_state) : physfs_state :=
  mkState (initialized s) (errorMessages s) v (baseDir s) (writeDir s)
    (allowSymLinks s) (openWriteCount s) (userDir_retval s) (sdi_heap s)
    (openReaders s) (malloc_plan s) (host_trace s).

Definition set_baseDir (v : option string) (s : physfs_state) : physfs_state :=
  mkState (initialized s) (errorMessages s) (searchPath s) v (writeDir s)
    (allowSymLinks s) (openWriteCount s) (userDir_retval s) (sdi_heap s)
    (openReaders s) (malloc_plan s) (host_trace s).

Definition set_writeDir (v : option string) (s : physfs_state) : physfs_state :=
  mkState (initialized s) (errorMessages s) (searchPath s) (baseDir s) v
    (allowSymLinks s) (openWriteCount s) (userDir_retval s) (sdi_heap s)
    (openReaders s) (malloc_plan s) (host_trace s).

Definition set_allowSymLinks (v : Z) (s : physfs_state) : physfs_state :=
  mkState (initialized s) (errorMessages s) (searchPath s) (baseDir s)
    (writeDir s) v (openWriteCount s) (userDir_retval s) (sdi_heap s)
    (openReaders s) (malloc_plan s) (host_trace s).

Definition set_userDir_retval (v : option string) (s : physfs_state) : physfs_state :=
  mkState (initialized s) (errorMessages s) (searchPath s) (baseDir s)
    (writeDir s) (allowSymLinks s) (openWriteCount s) v (sdi_heap s)
    (openReaders s) (malloc_plan s) (host_trace s).

Definition set_sdi_heap (v : gmap addr SearchDirInfo) (s : physfs_state) : physfs_state :=
  mkState (initialized s) (errorMessages s) (searchPath s) (baseDir s)
    (writeDir s) (allowSymLinks s) (openWriteCount s) (userDir_retval s) v
    (openReaders s) (malloc_plan s) (host_trace s).

Definition set_openReaders (v : gset DirReader) (s : physfs_state) : physfs_state :=
  mkState (initialized s) (errorMessages s) (searchPath s) (baseDir s)
    (writeDir s) (allowSymLinks s) (openWriteCount s) (userDir_retval s)
    (sdi_heap s) v (malloc_plan s) (host_trace s).

Definition set_malloc_plan (v : list bool) (s : physfs_state) : physfs_state :=
  mkState (initialized s) (errorMessages s) (searchPath s) (baseDir s)
    (writeDir s) (allowSymLinks s) (openWriteCount s) (userDir_retval s)
    (sdi_heap s) (openReaders s) v (host_trace s).

Definition set_host_trace (v : list host_call) (s : physfs_state) : physfs_state :=
  mkState (initialized s) (errorMessages s) (searchPath s) (baseDir s)
    (writeDir s) (allowSymLinks s) (openWriteCount s) (userDir_retval s)
    (sdi_heap s) (openReaders s) (malloc_plan s) v.

(** The state a process starts in: the initialisers of the globals. *)
Definition boot : physfs_state :=
  mkState 0 [] None None None 0 0 None ∅ ∅ [] [].

(** ** Outcomes

    A call returns a value and the next state, is still inside a loop when
    the fuel is spent, or stops the process: a failed [assert], or a
    dereference of a null or freed pointer. *)
Inductive outcome (A : Type) : Type :=
  | Returns (v : A) (s : physfs_state)
  | Hangs
  | Faults.
Arguments Returns {A} v s.
Arguments Hangs {A}.
Arguments Faults {A}.

Definition bind {A B : Type} (o : outcome A)
    (k : A → physfs_state → outcome B) : outcome B :=
  match o with
  | Returns v s => k v s
  | Hangs => Hangs
  | Faults => Faults
  end.

Notation "'do' ( x , s ) <- o ; k" := (bind o (fun x s => k))
  (at level 10, x name, s name, o at level 100, k at level 200,
   format "'do'  ( x ,  s )  <-  o ;  '/' k").

Definition returned {A : Type} (o : outcome A) : bool :=
  match o with Returns _ _ => true | _ => false end.

(** The value of a call, without the state it leaves. *)
Inductive verdict (A : Type) : Type :=
  | Value (v : A)
  | Hung
  | Faulted.
Arguments Value {A} v.
Arguments Hung {A}.
Arguments Faulted {A}.

Definition verdict_of {A : Type} (o : outcome A) : verdict A :=
  match o with
  | Returns v _ => Value v
  | Hangs => Hung
  | Faults => Faulted
  end.

(** ** Allocation

    [malloc] succeeds or not as the plan says; an exhausted plan means
    memory is plentiful. *)
Definition malloc (s : physfs_state) : bool * physfs_state :=
  match malloc_plan s with
  | [] => (true, s)
  | ok :: plan => (ok, set_malloc_plan plan s)
  end.

(** ** The error channel *)

(** The walk of [findErrorForCurrentThread] from node [i]: how many [next]
    links lead to the first node of thread [t]. *)
Fixpoint findError_from (t : Z) (i : list ErrMsg) : option nat :=
  match i with
  | [] => None
  | e :: rest =>
      if tid e =? t then Some 0%nat else S <$> findError_from t rest
  end.

(** [t] is what [__PHYSFS_platformGetThreadID] returns to the caller. *)
Definition findErrorForCurrentThread (t : Z) (s : physfs_state) : option nat :=
  match errorMessages s with
  | [] => None
  | _ :: _ => findError_from t (errorMessages s)
  end.

(** [strncpy] into [char errorString[80]] followed by the terminator at
    index 79. *)
Definition store_errorString (str : string) : string :=
  String.substring 0 79 str.

Definition __PHYSFS_setError (t : Z) (str : string) (s : physfs_state)
    : physfs_state :=
  match findErrorForCurrentThread t s with
  | Some k =>
      match errorMessages s !! k with
      | None => s
      | Some err =>
          set_errorMessages
            (<[k := mkErrMsg (tid err) 1 (store_errorString str)]>
               (errorMessages s)) s
      end
  | None =>
      let '(ok, s1) := malloc s in
      if ok then
        set_errorMessages
          (mkErrMsg t 1 (store_errorString str) :: errorMessages s1) s1
      else s1
  end.

Definition PHYSFS_getLastError (t : Z) (s : physfs_state)
    : option string * physfs_state :=
  match findErrorForCurrentThread t s with
  | None => (None, s)
  | Some k =>
      match errorMessages s !! k with
      | None => (None, s)
      | Some err =>
          if errorAvailable err =? 0 then (None, s)
          else
            (Some (errorString err),
             set_errorMessages
               (<[k := mkErrMsg (tid err) 0 (errorString err)]>
                  (errorMessages s)) s)
      end
  end.

(** Modelled from the spec: [BAIL_IF_MACRO(c, e, r)] is defined in
    [physfs_internal.h]; when [c] holds, the operation writes the message
    [e] to the caller's error slot and returns the failure value [r].  The
    comments in [PHYSFS_mkdir] and [PHYSFS_delete] say the same of the bail
    in [convertToDependentNotation]: the error goes through
    [__PHYSFS_setError].  The test of [c] stays with the caller. *)
Definition BAIL {A : Type} (t : Z) (e : string) (r : A) (s : physfs_state)
    : A * physfs_state :=
  (r, __PHYSFS_setError t e s).

(** ** The platform

    What [physfs.c] takes from the platform layer, from libc and from the
    functions it calls without defining them, as one record.  The host file
    system answers [createDirs_dependent] and [remove] as a function of the
    calls made so far; [remove] yields its return code and the text of
    [strerror(errno)].  [calculateBaseDir] is called without arguments and
    is the directory it yields. *)

(** What the archive registry and the directory backend make of a host
    path. *)
Inductive probe_result : Type :=
  | ProbeOpens
  | ProbeOpenFails (err : string)
  | ProbeUnclaimed.

Record Platform : Type := mkPlatform {
  __PHYSFS_pathSeparator : string;
  __PHYSFS_platformGetUserDir : option string;
  __PHYSFS_platformGetUserName : option string;
  getenv_HOME : option string;
  calculateBaseDir : option string;
  probe : string → probe_result;
  createDirs_dependent : list host_call → string → Z;
  libc_remove : list host_call → string → Z * string
}.

Section Model.

Context (P : Platform).

Definition PHYSFS_getDirSeparator : string := __PHYSFS_pathSeparator P.

Definition PHYSFS_getBaseDir (s : physfs_state) : option string := baseDir s.

Definition PHYSFS_getWriteDir (s : physfs_state) : option string := writeDir s.

Definition PHYSFS_init (t : Z) (argv0 : option string) (s : physfs_state)
    : Z * physfs_state :=
  if negb (initialized s =? 0) then BAIL t ERR_IS_INITIALIZED 0 s
  else
    match argv0 with
    | None => BAIL t ERR_INVALID_ARGUMENT 0 s
    | Some _ => (1, set_initialized 1 (set_baseDir (calculateBaseDir P) s))
    end.

(** *** Readers *)

(** Modelled from the spec: [getDirReader] is called by
    [PHYSFS_addToSearchPath] and defined nowhere in [physfs.c].  The first
    registered archive type that claims the path, else the directory
    backend, opens it; an unclaimed path is [UnsupportedArchive], a failed
    open surfaces its own error.  As the comment at the call site says, the
    error message is set here. *)
Definition getDirReader (t : Z) (newDir : string) (s : physfs_state)
    : option DirReader * physfs_state :=
  match probe P newDir with
  | ProbeOpens =>
      let r := fresh (openReaders s) in
      (Some r, set_openReaders ({[r]} ∪ openReaders s) s)
  | ProbeOpenFails e => (None, __PHYSFS_setError t e s)
  | ProbeUnclaimed => (None, __PHYSFS_setError t ERR_UNSUPPORTED_ARCHIVE s)
  end.

(** Modelled from the spec: the [close] entry of a [DirReader] (declared in
    [physfs_internal.h]) releases the backend state; calling through a
    reader that was already released reads freed memory. *)
Definition reader_close (r : DirReader) (s : physfs_state) : outcome unit :=
  if decide (r ∈ openReaders s)
  then Returns tt (set_openReaders (openReaders s ∖ {[r]}) s)
  else Faults.

(** Modelled from the spec: [freeReader] is called on the out-of-memory
    path of [PHYSFS_addToSearchPath] and defined nowhere; it releases the
    reader that [getDirReader] opened. *)
Definition freeReader (r : DirReader) (s : physfs_state) : outcome unit :=
  reader_close r s.

(** *** Releasing the search path *)

Definition freeSearchDir (sdi : option addr) (s : physfs_state) : outcome unit :=
  match sdi with
  | None => Faults
  | Some a =>
      match sdi_heap s !! a with
      | None => Faults
      | Some node =>
          do (_, s1) <- reader_close (reader node) s;
          Returns tt (set_sdi_heap (delete a (sdi_heap s1)) s1)
      end
  end.

(** The body of the [for] loop of [freeSearchPath]: [next = i], then
    [freeSearchDir(i)], then [i = next]. *)
Fixpoint freeSearchPath_loop (fuel : nat) (i : option addr) (s : physfs_state)
    : outcome unit :=
  match fuel with
  | O => Hangs
  | S fuel' =>
      match i with
      | None => Returns tt s
      | Some _ =>
          let next := i in
          do (_, s1) <- freeSearchDir i s;
          freeSearchPath_loop fuel' next s1
      end
  end.

Definition freeSearchPath (fuel : nat) (s : physfs_state) : outcome unit :=
  match searchPath s with
  | None => Returns tt s
  | Some _ =>
      do (_, s1) <- freeSearchPath_loop fuel (searchPath s) s;
      Returns tt (set_searchPath None s1)
  end.

Definition closeAllFiles (s : physfs_state) : physfs_state := s.

(** Modelled from the spec: [freeErrorMessages] is called by
    [PHYSFS_deinit] and defined nowhere; it frees the error slots. *)
Definition freeErrorMessages (s : physfs_state) : physfs_state :=
  set_errorMessages [] s.

(** *** The write directory *)

Definition PHYSFS_setWriteDir (t : Z) (newDir : option string)
    (s : physfs_state) : Z * physfs_state :=
  if 0 <? openWriteCount s then BAIL t ERR_FILES_OPEN_WRITE 0 s
  else
    let s1 := match writeDir s with
              | Some _ => set_writeDir None s
              | None => s
              end in
    match newDir with
    | None => (1, s1)
    | Some d =>
        let rc := createDirs_dependent P (host_trace s1) d in
        let s2 := set_host_trace (HostCreateDirs d :: host_trace s1) s1 in
        if rc =? 0 then BAIL t ERR_NO_DIR_CREATE 0 s2
        else
          let '(ok, s3) := malloc s2 in
          if ok then (1, set_writeDir (Some d) s3)
          else BAIL t ERR_OUT_OF_MEMORY 0 s3
    end.

(** [free(baseDir)] releases the block and leaves the variable as it is. *)
Definition PHYSFS_deinit (fuel : nat) (t : Z) (s : physfs_state) : outcome Z :=
  if initialized s =? 0 then
    let '(r, s') := BAIL t ERR_NOT_INITIALIZED 0 s in Returns r s'
  else
    let s1 := closeAllFiles s in
    let '(_, s2) := PHYSFS_setWriteDir t None s1 in
    do (_, s3) <- freeSearchPath fuel s2;
    let s4 := freeErrorMessages s3 in
    Returns 1 (set_initialized 0 (set_allowSymLinks 0 s4)).

(** *** The user directory *)

Definition PHYSFS_getUserDir (s : physfs_state) : outcome (option string) :=
  match userDir_retval s with
  | Some r => Returns (Some r) s
  | None =>
      match __PHYSFS_platformGetUserDir P with
      | Some str => Returns (baseDir s) (set_userDir_retval (Some str) s)
      | None =>
          let dirsep := PHYSFS_getDirSeparator in
          match getenv_HOME P with
          | Some str => Returns (baseDir s) (set_userDir_retval (Some str) s)
          | None =>
              let uname := __PHYSFS_platformGetUserName P in
              match baseDir s with
              | None => Faults
              | Some bd =>
                  let '(ok, s1) := malloc s in
                  if ok then
                    match uname with
                    | None => Faults
                    | Some u =>
                        Returns (baseDir s1)
                          (set_userDir_retval
                             (Some (bd +:+ dirsep +:+ "users" +:+ dirsep +:+ u))
                             s1)
                    end
                  else Returns (baseDir s1) (set_userDir_retval (baseDir s1) s1)
              end
          end
      end
  end.

(** *** The search path *)

(** The [while (i != NULL) prev = i;] of the [else] branch of
    [PHYSFS_addToSearchPath]: the value of [prev] when the loop is left. *)
Fixpoint addToSearchPath_walk (fuel : nat) (i prev : option addr)
    : option (option addr) :=
  match fuel with
  | O => None
  | S fuel' =>
      match i with
      | None => Some prev
      | Some _ => addToSearchPath_walk fuel' i i
      end
  end.

(** [physfs.c] writes the local once as [dirReader] (its declaration, the
    store into the node) and once as [reader] (the assignment, the null
    test, [freeReader]), and the field once as [reader] (the struct,
    [freeSearchDir]) and once as [dirReader]; the file compiles only when
    each pair is one name, and is read so here.  The block of a node enters
    the store once its three fields are written. *)
Definition PHYSFS_addToSearchPath (fuel : nat) (t : Z)
    (newDir : option string) (appendToPath : Z) (s : physfs_state)
    : outcome Z :=
  match newDir with
  | None => let '(r, s') := BAIL t ERR_INVALID_ARGUMENT 0 s in Returns r s'
  | Some newDir =>
      let '(dirReader, s1) := getDirReader t newDir s in
      match dirReader with
      | None => Returns 0 s1
      | Some dirReader =>
          let '(ok, s2) := malloc s1 in
          if negb ok then
            let '(r, s') := BAIL t ERR_OUT_OF_MEMORY 0 s2 in Returns r s'
          else
            let sdi : addr := fresh (dom (sdi_heap s2)) in
            let '(ok', s3) := malloc s2 in
            if negb ok' then
              do (_, s4) <- freeReader dirReader s3;
              Returns 0 (__PHYSFS_setError t ERR_OUT_OF_MEMORY s4)
            else if negb (appendToPath =? 0) then
              Returns 1
                (set_searchPath (Some sdi)
                   (set_sdi_heap
                      (<[sdi := mkSearchDirInfo newDir dirReader (searchPath s3)]>
                         (sdi_heap s3)) s3))
            else
              let s4 :=
                set_sdi_heap
                  (<[sdi := mkSearchDirInfo newDir dirReader None]> (sdi_heap s3))
                  s3 in
              match addToSearchPath_walk fuel (searchPath s4) None with
              | None => Hangs
              | Some None => Returns 1 (set_searchPath (Some sdi) s4)
              | Some (Some prev) =>
                  match sdi_heap s4 !! prev with
                  | None => Faults
                  | Some pn =>
                      Returns 1
                        (set_sdi_heap
                           (<[prev := mkSearchDirInfo (dirName pn) (reader pn)
                                        (Some sdi)]> (sdi_heap s4)) s4)
                  end
              end
      end
  end.

(** The [for] loop of [PHYSFS_removeFromSearchPath] from node [i], and the
    two statements after it. *)
Fixpoint removeFromSearchPath_scan (fuel : nat) (t : Z) (oldDir : string)
    (i prev : option addr) (s : physfs_state) : outcome Z :=
  match fuel with
  | O => Hangs
  | S fuel' =>
      match i with
      | None => Returns 0 (__PHYSFS_setError t ERR_NOT_IN_SEARCH_PATH s)
      | Some a =>
          match sdi_heap s !! a with
          | None => Faults
          | Some node =>
              if String.eqb (dirName node) oldDir then
                match prev with
                | None =>
                    do (_, s1) <- freeSearchDir i (set_searchPath (next node) s);
                    Returns 1 s1
                | Some p =>
                    match sdi_heap s !! p with
                    | None => Faults
                    | Some pn =>
                        do (_, s1) <-
                          freeSearchDir i
                            (set_sdi_heap
                               (<[p := mkSearchDirInfo (dirName pn) (reader pn)
                                         (next node)]> (sdi_heap s)) s);
                        Returns 1 s1
                    end
                end
              else removeFromSearchPath_scan fuel' t oldDir (next node) i s
          end
      end
  end.

Definition PHYSFS_removeFromSearchPath (fuel : nat) (t : Z)
    (oldDir : option string) (s : physfs_state) : outcome Z :=
  match oldDir with
  | None => let '(r, s') := BAIL t ERR_INVALID_ARGUMENT 0 s in Returns r s'
  | Some oldDir => removeFromSearchPath_scan fuel t oldDir (searchPath s) None s
  end.

(** The counting loop of [PHYSFS_getSearchPath]. *)
Fixpoint getSearchPath_count (fuel : nat) (i : option addr) (count : nat)
    (s : physfs_state) : outcome nat :=
  match fuel with
  | O => Hangs
  | S fuel' =>
      match i with
      | None => Returns count s
      | Some a =>
          match sdi_heap s !! a with
          | None => Faults
          | Some node => getSearchPath_count fuel' (next node) (S count) s
          end
      end
  end.

(** The copying loop of [PHYSFS_getSearchPath], [n] entries to go from node
    [i]: the strings of [retval], or the null that is returned once an
    allocation fails and the entries made so far are freed. *)
Fixpoint getSearchPath_copy (n : nat) (t : Z) (i : option addr)
    (s : physfs_state) : outcome (option (list string)) :=
  match n with
  | O => Returns (Some []) s
  | S n' =>
      match i with
      | None => Faults
      | Some a =>
          match sdi_heap s !! a with
          | None => Faults
          | Some node =>
              let '(ok, s1) := malloc s in
              if ok then
                do (rest, s2) <- getSearchPath_copy n' t (next node) s1;
                Returns (cons (dirName node) <$> rest) s2
              else Returns None (__PHYSFS_setError t ERR_OUT_OF_MEMORY s1)
          end
      end
  end.

Definition PHYSFS_getSearchPath (fuel : nat) (t : Z) (s : physfs_state)
    : outcome (option (list string)) :=
  do (count, s1) <- getSearchPath_count fuel (searchPath s) 1 s;
  let '(ok, s2) := malloc s1 in
  if negb ok then
    let '(r, s') := BAIL t ERR_OUT_OF_MEMORY None s2 in Returns r s'
  else
    let count := Nat.pred count in
    getSearchPath_copy count t (searchPath s2) s2.

(** *** Path translation

    [convertToDependentNotation] fills a [malloc]ed block through pointers;
    the block is a sequence of bytes that are unwritten ([None]) or hold a
    character.  Writing outside the block, and scanning for a terminator
    through unwritten bytes or past the end, stop the process.  Strings
    are C strings: they hold no NUL character. *)

Definition NUL : ascii := Ascii.zero.

Definition strlen (str : string) : nat := String.length str.

(** [b[i] = c] *)
Definition poke (b : list (option ascii)) (i : nat) (c : ascii)
    : option (list (option ascii)) :=
  if decide (i < length b)%nat then Some (<[i := Some c]> b) else None.

(** [strcpy(b + i, src)] *)
Fixpoint c_strcpy (b : list (option ascii)) (i : nat) (src : string)
    : option (list (option ascii)) :=
  match src with
  | EmptyString => poke b i NUL
  | String c rest => b' ← poke b i c; c_strcpy b' (S i) rest
  end.

(** [strlen(b)] *)
Fixpoint c_strlen (b : list (option ascii)) : option nat :=
  match b with
  | Some c :: rest => if decide (c = NUL) then Some 0%nat else S <$> c_strlen rest
  | _ => None
  end.

(** The C string that starts at [b]. *)
Fixpoint c_str (b : list (option ascii)) : option string :=
  match b with
  | Some c :: rest => if decide (c = NUL) then Some "" else String c <$> c_str rest
  | _ => None
  end.

(** [strcat(b, src)] *)
Definition c_strcat (b : list (option ascii)) (src : string)
    : option (list (option ascii)) :=
  n ← c_strlen b; c_strcpy b n src.

(** The loop that adds [sepsize - 1] to [allocSize] for each slash. *)
Fixpoint convert_allocSize (sepsize : nat) (str : string) (allocSize : nat)
    : nat :=
  match str with
  | EmptyString => allocSize
  | String c rest =>
      convert_allocSize sepsize rest
        (if decide (c = "/"%char) then (allocSize + (sepsize - 1))%nat
         else allocSize)
  end.

(** The copying loop: [i1] runs over [dirName], [i2] is an index into the
    block.  After a slash [i2] moves by [sepsize] in the body and by one more
    in the loop header. *)
Fixpoint convert_loop (dirsep : string) (i1 : string) (i2 : nat)
    (b : list (option ascii)) : option (nat * list (option ascii)) :=
  match i1 with
  | EmptyString => Some (i2, b)
  | String c rest =>
      if decide (c = "/"%char) then
        b' ← c_strcpy b i2 dirsep;
        convert_loop dirsep rest (S (i2 + strlen dirsep)) b'
      else
        b' ← poke b i2 c;
        convert_loop dirsep rest (S i2) b'
  end.

Definition convertToDependentNotation (t : Z) (prepend : option string)
    (dirName : string) (append : option string) (s : physfs_state)
    : outcome (option string) :=
  let dirsep := PHYSFS_getDirSeparator in
  let sepsize := strlen dirsep in
  match writeDir s with
  | None => Faults
  | Some wd =>
      let allocSize := (strlen dirName + strlen wd + sepsize + 1)%nat in
      let allocSize :=
        match prepend with
        | Some p => (allocSize + (strlen p + sepsize))%nat
        | None => allocSize
        end in
      let allocSize :=
        match append with
        | Some a => (allocSize + (strlen a + sepsize))%nat
        | None => allocSize
        end in
      let allocSize :=
        if decide (1 < sepsize)%nat
        then convert_allocSize sepsize dirName allocSize
        else allocSize in
      let '(ok, s1) := malloc s in
      if negb ok then
        let '(r, s') := BAIL t ERR_OUT_OF_MEMORY None s1 in Returns r s'
      else
        let filled :=
          str ← poke (replicate allocSize None) 0 NUL;
          str ← match prepend with
                | Some p => str ← c_strcpy str 0 p; c_strcat str dirsep
                | None => Some str
                end;
          n ← c_strlen str;
          '(i2, str) ← convert_loop dirsep dirName n str;
          str ← poke str i2 NUL;
          str ← match append with
                | Some a => str ← c_strcat str dirsep; c_strcpy str 0 a
                | None => Some str
                end;
          c_str str in
        match filled with
        | None => Faults
        | Some str => Returns (Some str) s1
        end
  end.

(** *** Directories and files under the write directory *)

Definition PHYSFS_mkdir (t : Z) (dirName : string) (s : physfs_state)
    : outcome Z :=
  match writeDir s with
  | None => let '(r, s') := BAIL t ERR_NO_WRITE_DIR 0 s in Returns r s'
  | Some _ =>
      do (str, s1) <- convertToDependentNotation t (writeDir s) dirName None s;
      match str with
      | None => Returns 0 s1
      | Some str =>
          let rc := createDirs_dependent P (host_trace s1) str in
          Returns rc (set_host_trace (HostCreateDirs str :: host_trace s1) s1)
      end
  end.

(** [strerror(errno)] is the second component of what [remove] yields. *)
Definition PHYSFS_delete (t : Z) (filename : string) (s : physfs_state)
    : outcome Z :=
  match writeDir s with
  | None => let '(r, s') := BAIL t ERR_NO_WRITE_DIR 0 s in Returns r s'
  | Some _ =>
      do (str, s1) <- convertToDependentNotation t (writeDir s) filename None s;
      match str with
      | None => Returns 0 s1
      | Some str =>
          let '(rc, msg) := libc_remove P (host_trace s1) str in
          let s2 := set_host_trace (HostRemove str :: host_trace s1) s1 in
          let rc := if rc =? 0 then 1 else 0 in
          if rc =? 0 then Returns rc (__PHYSFS_setError t msg s2)
          else Returns rc s2
      end
  end.

Definition PHYSFS_permitSymbolicLinks (allow : Z) (s : physfs_state)
    : physfs_state :=
  set_allowSymLinks allow s.

End Model.

(** ** File handles *)









(** ** A host to run the code on *)

(** A Unix host on which every path opens as a directory, directories can
    always be created and files removed, and the platform knows the user's
    directory. *)
Definition unix_host : Platform :=
  mkPlatform "/" (Some "/home/ryan") (Some "ryan") (Some "/home/ryan")
    (Some "/app/bin") (fun _ => ProbeOpens) (fun _ _ => 1)
    (fun _ _ => (0, "")).

(** After [PHYSFS_init("/app/bin/app")] on that host. *)
Definition ready : physfs_state :=
  (PHYSFS_init unix_host 1 (Some "/app/bin/app") boot).2.

Definition run {A : Type} (o : outcome A) : physfs_state :=
  match o with Returns _ s => s | _ => boot end.

(** The same host when the platform layer cannot tell the user's directory
    and [HOME] is set, and when [HOME] is unset as well. *)
Definition home_only_host : Platform :=
  mkPlatform "/" None (Some "ryan") (Some "/home/ryan")
    (Some "/app/bin") (fun _ => ProbeOpens) (fun _ _ => 1)
    (fun _ _ => (0, "")).

Definition bare_host : Platform :=
  mkPlatform "/" None (Some "ryan") None
    (Some "/app/bin") (fun _ => ProbeOpens) (fun _ _ => 1)
    (fun _ _ => (0, "")).

(** An initialized library with the write directory [/w] and one file open
    for writing. *)
Definition one_writer : physfs_state :=
  mkState 1 [] None (Some "/app/bin") (Some "/w") 0 1 None ∅ ∅ [] [].

(** [ready] after [PHYSFS_setWriteDir("/w")]. *)
Definition ready_w : physfs_state :=
  (PHYSFS_setWriteDir unix_host 1 (Some "/w") ready).2.

(** [ready] after [PHYSFS_addToSearchPath("/data", 1)]. *)
Definition mounted : physfs_state :=
  run (PHYSFS_addToSearchPath unix_host 1 1 (Some "/data") 1 ready).

(** [ready] when the next [malloc] fails, and when the one after it does. *)
Definition starved : physfs_state := set_malloc_plan [false] ready.

Definition starved_late : physfs_state := set_malloc_plan [true; false] ready.

(** A host that claims no path, on which no directory can be created and
    no file removed. *)
Definition closed_host : Platform :=
  mkPlatform "/" (Some "/home/ryan") (Some "ryan") (Some "/home/ryan")
    (Some "/app/bin") (fun _ => ProbeUnclaimed) (fun _ _ => 0)
    (fun _ _ => (-1, "Permission denied")).

(** A host on which neither the platform layer nor [HOME] tells the user's
    directory, and the user has no name. *)
Definition anonymous_host : Platform :=
  mkPlatform "/" None None None
    (Some "/app/bin") (fun _ => ProbeOpens) (fun _ _ => 1)
    (fun _ _ => (0, "")).

(** [ready] after [PHYSFS_addToSearchPath("/b", 1)] and then
    [PHYSFS_addToSearchPath("/a", 1)]. *)
Definition two_mounts : physfs_state :=
  run (PHYSFS_addToSearchPath unix_host 1 1 (Some "/a") 1
         (run (PHYSFS_addToSearchPath unix_host 1 1 (Some "/b") 1 ready))).

(** [ready_w] with one file open for writing. *)
Definition ready_w_writing : physfs_state :=
  mkState 1 [] None (Some "/app/bin") (Some "/w") 0 1 None ∅ ∅ [] [].


(** The two nodes of [two_mounts], from the head. *)
Definition two_mounts_nodes : list (addr * SearchDirInfo) :=
  [(1%nat, mkSearchDirInfo "/a" 1 (Some 0%nat));
   (0%nat, mkSearchDirInfo "/b" 0 None)].

(** Thread 7 has set an error and read it, thread 8 has set one after it
    and not read it: the slot of 8 heads the list with its flag set, the
    slot of 7 follows with its flag clear. *)
Definition one_read_one_unread : physfs_state :=
  (PHYSFS_getLastError 7
     (__PHYSFS_setError 8 ERR_OUT_OF_MEMORY
        (__PHYSFS_setError 7 ERR_NO_WRITE_DIR boot))).2.

(** ** Observations used in the statements *)

(** The nodes met from the pointer [p] through the [next] fields, each
    with its address, down to the null that ends the list. *)
Fixpoint sdi_list (h : gmap addr SearchDirInfo) (p : option addr)
    (l : list (addr * SearchDirInfo)) : Prop :=
  match l with
  | [] => p = None
  | (a, node) :: l' =>
      p = Some a ∧ h !! a = Some node ∧ sdi_list h (next node) l'
  end.

Definition mount_names (l : list (addr * SearchDirInfo)) : list string :=
  (λ x, dirName x.2) <$> l.

Definition mount_readers (l : list (addr * SearchDirInfo)) : list DirReader :=
  (λ x, reader x.2) <$> l.

(** The search path of [s] is the list [l], each node with an open reader
    of its own. *)
Definition search_path_wf (s : physfs_state)
    (l : list (addr * SearchDirInfo)) : Prop :=
  sdi_list (sdi_heap s) (searchPath s) l ∧
  NoDup (mount_readers l) ∧
  Forall (λ r, r ∈ openReaders s) (mount_readers l).

(** The next [n] calls of [malloc] succeed. *)
Definition plan_allows (n : nat) (plan : list bool) : bool :=
  forallb id (take n plan).

(** [s'] differs from [s] in the error slots and the allocation plan at
    most. *)
Definition same_but_errors (s s' : physfs_state) : Prop :=
  initialized s' = initialized s ∧ searchPath s' = searchPath s ∧
  baseDir s' = baseDir s ∧ writeDir s' = writeDir s ∧
  allowSymLinks s' = allowSymLinks s ∧
  openWriteCount s' = openWriteCount s ∧
  userDir_retval s' = userDir_retval s ∧ sdi_heap s' = sdi_heap s ∧
  openReaders s' = openReaders s ∧ host_trace s' = host_trace s.

(** How often [c] occurs in [str], and the part of [str] before its first
    occurrence. *)
Fixpoint count_char (c : ascii) (str : string) : nat :=
  match str with
  | EmptyString => 0%nat
  | String c' rest =>
      if bool_decide (c' = c) then S (count_char c rest) else count_char c rest
  end.

Fixpoint upto_char (c : ascii) (str : string) : string :=
  match str with
  | EmptyString => EmptyString
  | String c' rest =>
      if bool_decide (c' = c) then EmptyString else String c' (upto_char c rest)
  end.

(** The threads that have an error slot, in the order of the list. *)
Definition slot_threads (s : physfs_state) : list Z := tid <$> errorMessages s.


(** The message a [PHYSFS_getLastError] of thread [t] would hand out, read
    off the slot list. *)
Definition pending_message (t : Z) (l : list ErrMsg) : option string :=
  k ← findError_from t l;
  err ← l !! k;
  if errorAvailable err =? 0 then None else Some (errorString err).

(** No slot of thread [t] in the list has its flag set; so it is when [t]
    has no slot at all. *)
Definition no_error_pending (t : Z) (s : physfs_state) : bool :=
  forallb (λ e, negb (tid e =? t) || (errorAvailable e =? 0))
    (errorMessages s).

(** A slot of thread [t] is in the list, or the next [malloc] succeeds. *)
Definition slot_in_reach (t : Z) (s : physfs_state) : bool :=
  bool_decide (t ∈ slot_threads s) || (malloc s).1.

(** [__PHYSFS_setError] finds or gets a slot for thread [t]: the thread has
    one already, or the [malloc] of a new one succeeds. *)
Definition slot_obtainable (t : Z) (s : physfs_state) : bool :=
  bool_decide (is_Some (findErrorForCurrentThread t s)) || (malloc s).1.

(** The state in which [PHYSFS_setWriteDir] comes back from
    [createDirs_dependent(newDir)]: the write directory released and null,
    the host call made. *)
Definition setWriteDir_attempt (newDir : string) (s : physfs_state)
    : physfs_state :=
  set_host_trace (HostCreateDirs newDir :: host_trace s) (set_writeDir None s).

(** Two states hold the same search path and face the same allocator. *)
Definition same_search_path (s s' : physfs_state) : Prop :=
  searchPath s = searchPath s' ∧ sdi_heap s = sdi_heap s' ∧
  malloc_plan s = malloc_plan s'.

(** The bytes of a C string in a block, without the terminator. *)
Fixpoint bytes (str : string) : list (option ascii) :=
  match str with
  | EmptyString => []
  | String c rest => Some c :: bytes rest
  end.

(** The character [c] does not occur in [str]. *)
Fixpoint no_char (c : ascii) (str : string) : bool :=
  match str with
  | EmptyString => true
  | String c' rest => negb (bool_decide (c' = c)) && no_char c rest
  end.

(** ** The error channel *)

Section ErrorChannel.

Implicit Types (t : Z) (l : list ErrMsg) (s : physfs_state) (e : ErrMsg).

Lemma findErrorForCurrentThread_walk t s :
  findErrorForCurrentThread t s = findError_from t (errorMessages s).
Proof. unfold findErrorForCurrentThread. by destruct (errorMessages s). Qed.

Lemma findError_from_hit t l k :
  findError_from t l = Some k → ∃ e, l !! k = Some e ∧ tid e = t.
Proof.
  revert k. induction l as [|e l IH]; intros k Hk; simpl in Hk; [done|].
  destruct (Z.eqb_spec (tid e) t) as [Heq|Hne].
  - injection Hk as <-. by exists e.
  - destruct (findError_from t l) as [k'|]; [|done].
    injection Hk as <-. destruct (IH k' eq_refl) as (e' & ? & ?).
    by exists e'.
Qed.

Lemma findError_from_insert t l k e e' :
  l !! k = Some e → tid e' = tid e →
  findError_from t (<[k := e']> l) = findError_from t l.
Proof.
  revert k. induction l as [|e0 l IH]; intros k Hk Ht; [done|].
  destruct k as [|k]; simpl in *.
  - injection Hk as ->. by rewrite Ht.
  - by rewrite (IH k Hk Ht).
Qed.

Lemma getLastError_value t s :
  (PHYSFS_getLastError t s).1 = pending_message t (errorMessages s).
Proof.
  unfold PHYSFS_getLastError, pending_message.
  rewrite findErrorForCurrentThread_walk.
  destruct (findError_from t (errorMessages s)) as [k|]; simpl; [|done].
  destruct (errorMessages s !! k) as [err|]; simpl; [|done].
  by destruct (errorAvailable err =? 0).
Qed.

Lemma pending_message_cons_other t e l :
  tid e ≠ t → pending_message t (e :: l) = pending_message t l.
Proof.
  intros Hne. unfold pending_message. simpl.
  destruct (Z.eqb_spec (tid e) t); [done|].
  by destruct (findError_from t l).
Qed.

Lemma pending_message_insert_other t l k e e' :
  l !! k = Some e → tid e' = tid e → tid e ≠ t →
  pending_message t (<[k := e']> l) = pending_message t l.
Proof.
  intros Hk Ht Hne. unfold pending_message.
  rewrite (findError_from_insert _ _ _ _ _ Hk Ht).
  destruct (findError_from t l) as [k'|] eqn:Hfind; simpl; [|done].
  destruct (findError_from_hit _ _ _ Hfind) as (e0 & Hk' & Ht').
  rewrite list_lookup_insert_ne; [done|].
  intros ->. congruence.
Qed.

Lemma pending_message_insert_same t l k e msg :
  findError_from t l = Some k →
  pending_message t (<[k := mkErrMsg t 1 msg]> l) = Some msg.
Proof.
  intros Hfind. destruct (findError_from_hit _ _ _ Hfind) as (e0 & Hk & Ht).
  unfold pending_message.
  rewrite (findError_from_insert _ _ _ e0), Hfind by done. simpl.
  rewrite list_lookup_insert_eq by (by eapply lookup_lt_Some). done.
Qed.

(** What [__PHYSFS_setError] does to the slot list. *)
Lemma setError_errorMessages t str s :
  errorMessages (__PHYSFS_setError t str s) =
    match findError_from t (errorMessages s) with
    | Some k => <[k := mkErrMsg t 1 (store_errorString str)]> (errorMessages s)
    | None =>
        if (malloc s).1
        then mkErrMsg t 1 (store_errorString str) :: errorMessages s
        else errorMessages s
    end.
Proof.
  unfold __PHYSFS_setError. rewrite findErrorForCurrentThread_walk.
  destruct (findError_from t (errorMessages s)) as [k|] eqn:Hfind.
  - destruct (findError_from_hit _ _ _ Hfind) as (e & -> & <-). done.
  - unfold malloc. destruct (malloc_plan s) as [|[] plan]; done.
Qed.

Lemma store_errorString_short str :
  (strlen str ≤ 79)%nat → store_errorString str = str.
Proof.
  unfold store_errorString, strlen. generalize 79%nat.
  induction str as [|c str IH]; intros n Hn; destruct n; simpl in *;
    try done; try lia.
  f_equal. apply IH. lia.
Qed.

End ErrorChannel.

Lemma getLastError_idle (t : Z) (s : physfs_state) :
  pending_message t (errorMessages s) = None →
  PHYSFS_getLastError t s = (None, s).
Proof.
  unfold PHYSFS_getLastError, pending_message.
  rewrite findErrorForCurrentThread_walk.
  destruct (findError_from t (errorMessages s)) as [k|]; simpl; [|done].
  destruct (errorMessages s !! k) as [err|]; simpl; [|done].
  by destruct (errorAvailable err =? 0).
Qed.

Lemma getLastError_take (t : Z) (s : physfs_state) (msg : string) :
  pending_message t (errorMessages s) = Some msg →
  ∃ s1, PHYSFS_getLastError t s = (Some msg, s1) ∧
        pending_message t (errorMessages s1) = None.
Proof.
  unfold PHYSFS_getLastError. rewrite findErrorForCurrentThread_walk.
  unfold pending_message at 1.
  destruct (findError_from t (errorMessages s)) as [k|] eqn:Hfind; simpl; [|done].
  destruct (errorMessages s !! k) as [err|] eqn:Hk; simpl; [|done].
  destruct (errorAvailable err =? 0); [done|].
  intros [= <-]. eexists. split; [done|]. simpl.
  unfold pending_message.
  rewrite (findError_from_insert _ _ _ err), Hfind by done. simpl.
  rewrite list_lookup_insert_eq by (by eapply lookup_lt_Some). done.
Qed.

Lemma setError_pending (t : Z) (str : string) (s : physfs_state) :
  slot_obtainable t s = true →
  pending_message t (errorMessages (__PHYSFS_setError t str s)) =
    Some (store_errorString str).
Proof.
  unfold slot_obtainable. rewrite findErrorForCurrentThread_walk.
  rewrite setError_errorMessages. intros Hroom.
  destruct (findError_from t (errorMessages s)) as [k|] eqn:Hfind.
  - by eapply pending_message_insert_same.
  - rewrite bool_decide_eq_false_2 in Hroom by (by intros [? ?]).
    simpl in Hroom. rewrite Hroom. unfold pending_message. simpl.
    by rewrite Z.eqb_refl.
Qed.

Lemma no_error_pending_idle (t : Z) (l : list ErrMsg) :
  forallb (λ e, negb (tid e =? t) || (errorAvailable e =? 0)) l = true →
  pending_message t l = None.
Proof.
  induction l as [|e l IH]; simpl; [done|]. intros Hall.
  apply andb_true_iff in Hall as [He Hl].
  destruct (Z.eqb_spec (tid e) t) as [Heq|Hne].
  - simpl in He. unfold pending_message. simpl.
    destruct (Z.eqb_spec (tid e) t); [|done]. simpl. by rewrite He.
  - rewrite pending_message_cons_other by done. by apply IH.
Qed.

Lemma findError_from_member (t : Z) (l : list ErrMsg) :
  t ∈ tid <$> l → is_Some (findError_from t l).
Proof.
  induction l as [|e l IH]; simpl; [by intros ?%elem_of_nil|].
  intros Hin. destruct (Z.eqb_spec (tid e) t) as [|Hne]; [by eexists|].
  apply elem_of_cons in Hin as [Heq|Hin]; [by destruct Hne|].
  destruct (IH Hin) as [k ->]. by eexists.
Qed.

Lemma slot_in_reach_obtainable (t : Z) (s : physfs_state) :
  slot_in_reach t s = true → slot_obtainable t s = true.
Proof.
  unfold slot_in_reach, slot_obtainable. intros Hreach.
  apply orb_true_iff in Hreach as [Hslot| ->]; [|by rewrite orb_true_r].
  apply bool_decide_eq_true_1 in Hslot.
  rewrite bool_decide_eq_true_2; [done|].
  rewrite findErrorForCurrentThread_walk.
  by apply findError_from_member.
Qed.

(** C5, amended: [PHYSFS_getLastError] is destructive.  After a thread
    has set one error and the error was stored (a slot of the thread is in
    the list, or the [malloc] of one succeeds; when that [malloc] fails,
    [__PHYSFS_setError] returns without storing anything), its next call
    returns the message as the 80-byte slot holds it, which is the message
    itself when it has at most 79 bytes, and the call after that returns
    nothing; and a call of a thread none of whose slots has its flag set
    returns nothing and changes nothing. *)
Theorem getLastError_destructive (t : Z) (str : string) (s idle : physfs_state) :
  slot_in_reach t s = true →
  no_error_pending t idle = true →
  ∃ s1,
    PHYSFS_getLastError t (__PHYSFS_setError t str s)
      = (Some (store_errorString str), s1) ∧
    PHYSFS_getLastError t s1 = (None, s1) ∧
    ((strlen str ≤ 79)%nat → store_errorString str = str) ∧
    PHYSFS_getLastError t idle = (None, idle).
Proof.
  intros Hreach Hidle. apply slot_in_reach_obtainable in Hreach as Hroom.
  destruct (getLastError_take t _ _ (setError_pending t str s Hroom))
    as (s1 & Hfirst & Hnone).
  exists s1. split; [done|]. split; [by apply getLastError_idle|].
  split; [apply store_errorString_short|].
  by apply getLastError_idle, no_error_pending_idle.
Qed.

Lemma getLastError_destructive_witness :
  slot_in_reach 7 one_read_one_unread = true ∧
  no_error_pending 7 one_read_one_unread = true ∧
  ∃ s1,
    PHYSFS_getLastError 7
      (__PHYSFS_setError 7 ERR_NOT_IN_SEARCH_PATH one_read_one_unread)
      = (Some (store_errorString ERR_NOT_IN_SEARCH_PATH), s1) ∧
    PHYSFS_getLastError 7 s1 = (None, s1) ∧
    ((strlen ERR_NOT_IN_SEARCH_PATH ≤ 79)%nat →
       store_errorString ERR_NOT_IN_SEARCH_PATH = ERR_NOT_IN_SEARCH_PATH) ∧
    PHYSFS_getLastError 7 one_read_one_unread = (None, one_read_one_unread).
Proof.
  split; [reflexivity|]. split; [reflexivity|].
  apply (getLastError_destructive 7 ERR_NOT_IN_SEARCH_PATH
           one_read_one_unread one_read_one_unread); reflexivity.
Defined.

(** C5 as stated fails when memory is short: for a thread without a slot
    whose [malloc] fails, [__PHYSFS_setError] returns without storing the
    error, and the first [PHYSFS_getLastError] after it returns nothing
    instead of the message. *)
Lemma getLastError_after_lost_error :
  errorMessages starved = [] ∧
  malloc_plan starved = [false] ∧
  (PHYSFS_getLastError 1 (__PHYSFS_setError 1 ERR_NO_WRITE_DIR starved)).1
    = None ∧
  (PHYSFS_getLastError 1 (__PHYSFS_setError 1 ERR_NO_WRITE_DIR starved)).1
    ≠ Some ERR_NO_WRITE_DIR.
Proof. repeat split; try reflexivity. discriminate. Qed.

(** C6: the error channel is keyed by thread.  Setting an error as thread
    [t] does not change what [PHYSFS_getLastError] returns to another
    thread [t']. *)
Theorem setError_other_thread (t t' : Z) (str : string) (s : physfs_state) :
  t ≠ t' →
  (PHYSFS_getLastError t' (__PHYSFS_setError t str s)).1
    = (PHYSFS_getLastError t' s).1.
Proof.
  intros Hne. rewrite !getLastError_value, setError_errorMessages.
  destruct (findError_from t (errorMessages s)) as [k|] eqn:Hfind.
  - destruct (findError_from_hit _ _ _ Hfind) as (e & Hk & Ht).
    apply (pending_message_insert_other _ _ _ e); simpl; congruence.
  - destruct (malloc s).1; [|done].
    apply pending_message_cons_other. simpl. done.
Qed.

Lemma setError_other_thread_witness :
  (1 : Z) ≠ 2 ∧
  (PHYSFS_getLastError 2
     (__PHYSFS_setError 1 ERR_OUT_OF_MEMORY
        (__PHYSFS_setError 2 ERR_NO_WRITE_DIR boot))).1
    = (PHYSFS_getLastError 2 (__PHYSFS_setError 2 ERR_NO_WRITE_DIR boot)).1.
Proof.
  split; [discriminate|]. apply setError_other_thread. discriminate.
Defined.

(** ** What setting an error leaves alone *)

Lemma setError_frame (t : Z) (str : string) (s : physfs_state) :
  let s' := __PHYSFS_setError t str s in
  initialized s' = initialized s ∧ searchPath s' = searchPath s ∧
  baseDir s' = baseDir s ∧ writeDir s' = writeDir s ∧
  allowSymLinks s' = allowSymLinks s ∧
  openWriteCount s' = openWriteCount s ∧
  userDir_retval s' = userDir_retval s ∧ sdi_heap s' = sdi_heap s ∧
  openReaders s' = openReaders s ∧ host_trace s' = host_trace s.
Proof.
  unfold __PHYSFS_setError, malloc.
  destruct (findErrorForCurrentThread t s) as [k|]; simpl.
  - by destruct (errorMessages s !! k).
  - destruct (malloc_plan s) as [|[] plan]; simpl; done.
Qed.

Lemma setError_keeps_path (t : Z) (str : string) (s : physfs_state) :
  searchPath (__PHYSFS_setError t str s) = searchPath s ∧
  sdi_heap (__PHYSFS_setError t str s) = sdi_heap s.
Proof.
  destruct (setError_frame t str s) as (_ & ? & _ & _ & _ & _ & _ & ? & _).
  done.
Qed.

Lemma setError_collect (t : Z) (str : string) (s : physfs_state) :
  slot_obtainable t s = true →
  (PHYSFS_getLastError t (__PHYSFS_setError t str s)).1
    = Some (store_errorString str).
Proof.
  intros Hroom. rewrite getLastError_value. by apply setError_pending.
Qed.

Section Facade.

Context (P : Platform).

(** C7: with a file open for writing, [PHYSFS_setWriteDir] fails for every
    argument: it returns 0, its only effect is to set the error
    [FilesStillOpenForWrite] for the caller, and the write directory and
    the host file system are as before. *)
Theorem setWriteDir_files_open (t : Z) (newDir : option string)
    (s : physfs_state) :
  0 < openWriteCount s →
  ∃ s',
    PHYSFS_setWriteDir P t newDir s = (0, s') ∧
    s' = __PHYSFS_setError t ERR_FILES_OPEN_WRITE s ∧
    PHYSFS_getWriteDir s' = PHYSFS_getWriteDir s ∧
    host_trace s' = host_trace s ∧
    (slot_obtainable t s = true →
     (PHYSFS_getLastError t s').1 = Some ERR_FILES_OPEN_WRITE).
Proof.
  intros Hopen. eexists. split.
  - unfold PHYSFS_setWriteDir, BAIL.
    destruct (Z.ltb_spec 0 (openWriteCount s)); [reflexivity|lia].
  - split; [done|].
    destruct (setError_frame t ERR_FILES_OPEN_WRITE s)
      as (_ & _ & _ & Hw & _ & _ & _ & _ & _ & Hh).
    split; [exact Hw|]. split; [exact Hh|].
    intros Hroom. by rewrite setError_collect.
Qed.

(** C10, amended: [PHYSFS_init] with a null [argv0] fails in every state
    and leaves the [initialized] flag and the base directory as they were;
    the error it sets is [InvalidArgument] in an uninitialized state and
    [IsInitialized] in an initialized one, whose test comes first. *)
Theorem init_null_argv0 (t : Z) (s : physfs_state) :
  ∃ s',
    PHYSFS_init P t None s = (0, s') ∧
    s' = __PHYSFS_setError t
           (if initialized s =? 0 then ERR_INVALID_ARGUMENT
            else ERR_IS_INITIALIZED) s ∧
    initialized s' = initialized s ∧
    PHYSFS_getBaseDir s' = PHYSFS_getBaseDir s.
Proof.
  exists (__PHYSFS_setError t
            (if initialized s =? 0 then ERR_INVALID_ARGUMENT
             else ERR_IS_INITIALIZED) s).
  split.
  - unfold PHYSFS_init, BAIL. destruct (initialized s =? 0); reflexivity.
  - split; [done|].
    destruct (setError_frame t
                (if initialized s =? 0 then ERR_INVALID_ARGUMENT
                 else ERR_IS_INITIALIZED) s) as (Hi & _ & Hb & _).
    split; [exact Hi | exact Hb].
Qed.

(** The first call of [PHYSFS_getUserDir] that returns hands out the base
    directory, whatever it has computed. *)
Lemma getUserDir_first_call (s s' : physfs_state) (v : option string) :
  userDir_retval s = None →
  PHYSFS_getUserDir P s = Returns v s' → v = baseDir s.
Proof.
  unfold PHYSFS_getUserDir, malloc. intros ->.
  destruct (__PHYSFS_platformGetUserDir P); [by intros [= <- <-]|].
  destruct (getenv_HOME P); [by intros [= <- <-]|].
  destruct (baseDir s) as [bd|] eqn:Hbd; [|done].
  destruct (malloc_plan s) as [|[] plan]; simpl;
    destruct (__PHYSFS_platformGetUserName P); simpl; rewrite ?Hbd;
    intros [= <- <-]; done.
Qed.

End Facade.

Lemma setWriteDir_files_open_witness :
  0 < openWriteCount one_writer ∧
  ∃ s',
    PHYSFS_setWriteDir unix_host 1 (Some "/elsewhere") one_writer = (0, s') ∧
    s' = __PHYSFS_setError 1 ERR_FILES_OPEN_WRITE one_writer ∧
    PHYSFS_getWriteDir s' = PHYSFS_getWriteDir one_writer ∧
    host_trace s' = host_trace one_writer ∧
    (slot_obtainable 1 one_writer = true →
     (PHYSFS_getLastError 1 s').1 = Some ERR_FILES_OPEN_WRITE).
Proof.
  split; [reflexivity|].
  apply (setWriteDir_files_open unix_host 1 (Some "/elsewhere") one_writer).
  reflexivity.
Defined.

(** C10 as stated fails on an initialized state: the call fails there with
    [IsInitialized], not with [InvalidArgument]. *)
Lemma init_null_argv0_initialized :
  initialized ready = 1 ∧
  (PHYSFS_init unix_host 1 None ready).1 = 0 ∧
  (PHYSFS_getLastError 1 (PHYSFS_init unix_host 1 None ready).2).1
    = Some ERR_IS_INITIALIZED ∧
  (PHYSFS_getLastError 1 (PHYSFS_init unix_host 1 None ready).2).1
    ≠ Some ERR_INVALID_ARGUMENT.
Proof. repeat split; try reflexivity. discriminate. Qed.

(** C9: on each of the three paths the user directory is computed and
    stored in [retval], and the call returns the base directory instead;
    only a second call hands out what the first one computed. *)
Theorem getUserDir_returns_baseDir :
  verdict_of (PHYSFS_getUserDir unix_host ready) = Value (Some "/app/bin") ∧
  userDir_retval (run (PHYSFS_getUserDir unix_host ready))
    = Some "/home/ryan" ∧
  verdict_of (PHYSFS_getUserDir home_only_host ready)
    = Value (Some "/app/bin") ∧
  userDir_retval (run (PHYSFS_getUserDir home_only_host ready))
    = Some "/home/ryan" ∧
  verdict_of (PHYSFS_getUserDir bare_host ready) = Value (Some "/app/bin") ∧
  userDir_retval (run (PHYSFS_getUserDir bare_host ready))
    = Some "/app/bin/users/ryan" ∧
  verdict_of
    (PHYSFS_getUserDir unix_host (run (PHYSFS_getUserDir unix_host ready)))
    = Value (Some "/home/ryan").
Proof. repeat split; reflexivity. Qed.

(** ** The search path *)

Lemma malloc_plan_only (s : physfs_state) :
  ∃ plan, (malloc s).2 = set_malloc_plan plan s.
Proof.
  unfold malloc. destruct (malloc_plan s) as [|ok plan] eqn:Hplan.
  - exists []. destruct s. simpl in *. by subst.
  - by exists plan.
Qed.

(** The walk to the tail leaves its loop only if it never entered it. *)
Lemma addToSearchPath_walk_exit (fuel : nat) (i prev r : option addr) :
  addToSearchPath_walk fuel i prev = Some r → i = None ∧ r = prev.
Proof.
  revert prev. induction fuel as [|fuel IH]; intros prev; simpl; [done|].
  destruct i as [a|].
  - intros H. by destruct (IH _ H).
  - by intros [= ->].
Qed.

Lemma addToSearchPath_walk_stuck (fuel : nat) (a : addr) (prev : option addr) :
  addToSearchPath_walk fuel (Some a) prev = None.
Proof.
  revert prev. induction fuel as [|fuel IH]; intros prev; simpl; [done|].
  apply IH.
Qed.

Lemma sdi_fresh (s : physfs_state) :
  sdi_heap s !! fresh (dom (sdi_heap s)) = None.
Proof. apply not_elem_of_dom, is_fresh. Qed.

Section SearchPath.

Context (P : Platform).

(** A successful [PHYSFS_addToSearchPath] has opened a reader and linked a
    fresh node in front of the old list; on the [else] branch this is the
    case of the empty list, the only one in which the walk ends. *)
Lemma addToSearchPath_success (fuel : nat) (t : Z) (m : string)
    (appendToPath rc : Z) (s s1 : physfs_state) :
  PHYSFS_addToSearchPath P fuel t (Some m) appendToPath s = Returns rc s1 →
  rc ≠ 0 →
  let sdi := fresh (dom (sdi_heap s)) in
  let r := fresh (openReaders s) in
  searchPath s1 = Some sdi ∧
  sdi_heap s1 = <[sdi := mkSearchDirInfo m r (searchPath s)]> (sdi_heap s) ∧
  openReaders s1 = {[r]} ∪ openReaders s.
Proof.
  unfold PHYSFS_addToSearchPath, getDirReader, BAIL, freeReader, reader_close.
  destruct (probe P m); [|by intros [= <- _]..].
  set (s0 := set_openReaders _ s).
  destruct (malloc_plan_only s0) as (plan1 & Hs2).
  destruct (malloc s0) as [ok1 s2]. simpl in Hs2. subst s2.
  destruct ok1; simpl; [|by intros [= <- _]].
  set (s2 := set_malloc_plan plan1 s0).
  destruct (malloc_plan_only s2) as (plan2 & Hs3).
  destruct (malloc s2) as [ok2 s3]. simpl in Hs3. subst s3.
  destruct ok2; simpl.
  - destruct (appendToPath =? 0); simpl.
    + destruct (addToSearchPath_walk fuel (searchPath s) None) as [prev|] eqn:Hw;
        [|done].
      destruct (addToSearchPath_walk_exit _ _ _ _ Hw) as [Hnil ->].
      intros [= <- <-] _. simpl. by rewrite Hnil.
    + by intros [= <- <-] _.
  - case_decide; [by intros [= <- _]|done].
Qed.

(** Removing the label of the node at the head unlinks and frees that
    node. *)
Lemma removeFromSearchPath_head (fuel : nat) (t : Z) (m : string)
    (s1 : physfs_state) (sdi : addr) (r : DirReader) (nx : option addr)
    (h : gmap addr SearchDirInfo) (rs : gset DirReader) :
  searchPath s1 = Some sdi →
  sdi_heap s1 = <[sdi := mkSearchDirInfo m r nx]> h →
  openReaders s1 = {[r]} ∪ rs →
  PHYSFS_removeFromSearchPath (S fuel) t (Some m) s1 =
    Returns 1
      (set_sdi_heap (delete sdi (sdi_heap s1))
         (set_openReaders (openReaders s1 ∖ {[r]}) (set_searchPath nx s1))).
Proof.
  intros Hsp Hheap Hrs.
  unfold PHYSFS_removeFromSearchPath. simpl. rewrite Hsp, Hheap.
  rewrite lookup_insert_eq. simpl. rewrite String.eqb_refl.
  unfold freeSearchDir. simpl. rewrite Hheap, lookup_insert_eq. simpl.
  unfold reader_close. simpl. rewrite Hrs.
  rewrite decide_True by (by apply elem_of_union_l, elem_of_singleton).
  simpl. by rewrite ?Hheap, ?Hrs.
Qed.

End SearchPath.

(** *** [PHYSFS_getSearchPath] reads the list and the allocator only *)

Lemma getSearchPath_count_ext (fuel : nat) (i : option addr) (c : nat)
    (s s' : physfs_state) :
  sdi_heap s = sdi_heap s' →
  getSearchPath_count fuel i c s' =
    match getSearchPath_count fuel i c s with
    | Returns n _ => Returns n s'
    | Hangs => Hangs
    | Faults => Faults
    end.
Proof.
  intros Hheap. revert i c. induction fuel as [|fuel IH]; intros i c; simpl;
    [done|].
  destruct i as [a|]; [|done]. rewrite <- Hheap.
  destruct (sdi_heap s !! a); [apply IH|done].
Qed.

Lemma getSearchPath_count_state (fuel : nat) (i : option addr) (c n : nat)
    (s s1 : physfs_state) :
  getSearchPath_count fuel i c s = Returns n s1 → s1 = s.
Proof.
  revert i c. induction fuel as [|fuel IH]; intros i c; simpl; [done|].
  destruct i as [a|]; [|by intros [= _ <-]].
  destruct (sdi_heap s !! a); [apply IH|done].
Qed.

Lemma malloc_same_search_path (s s' : physfs_state) :
  same_search_path s s' →
  (malloc s).1 = (malloc s').1 ∧ same_search_path (malloc s).2 (malloc s').2.
Proof.
  intros (Hsp & Hheap & Hplan). unfold malloc. rewrite <- Hplan.
  destruct (malloc_plan s) as [|ok plan] eqn:Hp; simpl; [by rewrite <- Hp in Hplan|].
  done.
Qed.

Lemma getSearchPath_copy_ext (n : nat) (t t' : Z) (i : option addr)
    (s s' : physfs_state) :
  same_search_path s s' →
  verdict_of (getSearchPath_copy n t i s)
    = verdict_of (getSearchPath_copy n t' i s').
Proof.
  revert i s s'. induction n as [|n IH]; intros i s s' Hsame; simpl; [done|].
  destruct i as [a|]; [|done].
  destruct Hsame as (Hsp & Hheap & Hplan). rewrite <- Hheap.
  destruct (sdi_heap s !! a) as [node|]; [|done].
  destruct (malloc_same_search_path s s') as [Hok Hnext]; [done|].
  destruct (malloc s) as [ok s1], (malloc s') as [ok' s1']. simpl in *.
  subst ok'. destruct ok; [|done].
  specialize (IH (next node) s1 s1' Hnext).
  destruct (getSearchPath_copy n t (next node) s1),
           (getSearchPath_copy n t' (next node) s1'); simpl in *; congruence.
Qed.

Lemma getSearchPath_ext (fuel : nat) (t t' : Z) (s s' : physfs_state) :
  same_search_path s s' →
  verdict_of (PHYSFS_getSearchPath fuel t s)
    = verdict_of (PHYSFS_getSearchPath fuel t' s').
Proof.
  intros Hsame. unfold PHYSFS_getSearchPath.
  destruct (Hsame) as (Hsp & Hheap & Hplan). rewrite <- Hsp.
  rewrite (getSearchPath_count_ext fuel _ _ s s' Hheap).
  destruct (getSearchPath_count fuel (searchPath s) 1 s) as [c s1| |] eqn:Hc;
    [|done..].
  apply getSearchPath_count_state in Hc as ->. simpl.
  destruct (malloc_same_search_path s s') as [Hok Hnext]; [done|].
  destruct (malloc s) as [ok s1], (malloc s') as [ok' s1']. simpl in *.
  subst ok'. destruct ok; simpl; [|done].
  destruct Hnext as (Hsp1 & ?). rewrite <- Hsp1.
  by apply getSearchPath_copy_ext.
Qed.

Section RoundTrip.

Context (P : Platform).

(** C3: when [PHYSFS_addToSearchPath] of [m] succeeds, with either value
    of [appendToPath], a [PHYSFS_removeFromSearchPath] of [m] that follows
    succeeds, and [PHYSFS_getSearchPath] then gives what it gave before the
    add, whatever the allocator does. *)
Theorem add_then_remove (fuel : nat) (t : Z) (m : string)
    (appendToPath rc : Z) (s s1 : physfs_state) :
  PHYSFS_addToSearchPath P fuel t (Some m) appendToPath s = Returns rc s1 →
  rc ≠ 0 →
  ∃ s2,
    (∀ fuel' t',
       PHYSFS_removeFromSearchPath (S fuel') t' (Some m) s1 = Returns 1 s2) ∧
    searchPath s2 = searchPath s ∧
    sdi_heap s2 = sdi_heap s ∧
    ∀ fuel' t' plan,
      verdict_of (PHYSFS_getSearchPath fuel' t' (set_malloc_plan plan s2))
        = verdict_of (PHYSFS_getSearchPath fuel' t' (set_malloc_plan plan s)).
Proof.
  intros Hadd Hrc.
  destruct (addToSearchPath_success P _ _ _ _ _ _ _ Hadd Hrc)
    as (Hsp & Hheap & Hrs).
  eexists. split.
  { intros fuel' t'. by eapply removeFromSearchPath_head. }
  assert (Hback : delete (fresh (dom (sdi_heap s))) (sdi_heap s1) = sdi_heap s).
  { rewrite Hheap. apply delete_insert_id, sdi_fresh. }
  simpl. split; [done|]. split; [done|].
  intros fuel' t' plan. apply getSearchPath_ext.
  by repeat split.
Qed.

End RoundTrip.

Lemma add_then_remove_witness :
  PHYSFS_addToSearchPath unix_host 1 1 (Some "/data") 1 ready
    = Returns 1 mounted ∧
  (1 : Z) ≠ 0 ∧
  ∃ s2,
    (∀ fuel' t',
       PHYSFS_removeFromSearchPath (S fuel') t' (Some "/data") mounted
         = Returns 1 s2) ∧
    searchPath s2 = searchPath ready ∧
    sdi_heap s2 = sdi_heap ready ∧
    ∀ fuel' t' plan,
      verdict_of (PHYSFS_getSearchPath fuel' t' (set_malloc_plan plan s2))
        = verdict_of
            (PHYSFS_getSearchPath fuel' t' (set_malloc_plan plan ready)).
Proof.
  split; [reflexivity|]. split; [discriminate|].
  apply (add_then_remove unix_host 1 1 "/data" 1 1 ready mounted);
    [reflexivity|discriminate].
Defined.

(** *** Insertion order *)

(** With a list that is not empty, the [else] branch of
    [PHYSFS_addToSearchPath] never leaves its loop. *)
Lemma addToSearchPath_else_hangs (P : Platform) (fuel : nat) (t : Z)
    (newDir : string) (s : physfs_state) (a : addr) :
  searchPath s = Some a → probe P newDir = ProbeOpens → malloc_plan s = [] →
  PHYSFS_addToSearchPath P fuel t (Some newDir) 0 s = Hangs.
Proof.
  intros Hsp Hprobe Hplan.
  unfold PHYSFS_addToSearchPath, getDirReader, malloc. rewrite Hprobe.
  simpl. rewrite Hplan. simpl. rewrite Hplan. simpl. rewrite Hsp.
  by rewrite addToSearchPath_walk_stuck.
Qed.

(** C1: with [appendToPath] set, [PHYSFS_addToSearchPath] links the new
    node at the head, so two appends list in reverse order; with
    [appendToPath] clear, the first add on an empty path succeeds and the
    second never returns. *)
Theorem addToSearchPath_order :
  verdict_of
    (PHYSFS_getSearchPath 3 1
       (run (PHYSFS_addToSearchPath unix_host 1 1 (Some "n") 1
          (run (PHYSFS_addToSearchPath unix_host 1 1 (Some "m") 1 ready)))))
    = Value (Some ["n"; "m"]) ∧
  verdict_of (PHYSFS_addToSearchPath unix_host 1 1 (Some "m") 0 ready)
    = Value 1 ∧
  ∀ fuel,
    PHYSFS_addToSearchPath unix_host fuel 1 (Some "n") 0
      (run (PHYSFS_addToSearchPath unix_host 1 1 (Some "m") 0 ready))
    = Hangs.
Proof.
  split; [reflexivity|]. split; [reflexivity|].
  intros fuel. by eapply addToSearchPath_else_hangs.
Qed.

(** *** Failure of an add *)

(** C8: when the [malloc] of the node fails, [PHYSFS_addToSearchPath]
    returns 0 with the search path as it was and the reader it has just
    opened still open; when the [malloc] of the name fails, the reader is
    released. *)
Theorem addToSearchPath_leaks_reader :
  verdict_of (PHYSFS_addToSearchPath unix_host 1 1 (Some "/data") 1 starved)
    = Value 0 ∧
  searchPath (run (PHYSFS_addToSearchPath unix_host 1 1 (Some "/data") 1 starved))
    = searchPath starved ∧
  sdi_heap (run (PHYSFS_addToSearchPath unix_host 1 1 (Some "/data") 1 starved))
    = sdi_heap starved ∧
  elements (openReaders starved) = [] ∧
  elements
    (openReaders
       (run (PHYSFS_addToSearchPath unix_host 1 1 (Some "/data") 1 starved)))
    = [0%nat] ∧
  verdict_of
    (PHYSFS_addToSearchPath unix_host 1 1 (Some "/data") 1 starved_late)
    = Value 0 ∧
  elements
    (openReaders
       (run (PHYSFS_addToSearchPath unix_host 1 1 (Some "/data") 1
               starved_late)))
    = [].
Proof. repeat split; vm_compute; reflexivity. Qed.

Section AddFailure.

Context (P : Platform).

(** Every failing [PHYSFS_addToSearchPath] leaves the list as it was. *)
Lemma addToSearchPath_failure_keeps_path (fuel : nat) (t : Z)
    (newDir : option string) (appendToPath : Z) (s s' : physfs_state) :
  PHYSFS_addToSearchPath P fuel t newDir appendToPath s = Returns 0 s' →
  searchPath s' = searchPath s ∧ sdi_heap s' = sdi_heap s.
Proof.
  unfold PHYSFS_addToSearchPath, getDirReader, BAIL, freeReader, reader_close.
  destruct newDir as [m|]; [|intros [= <-]; apply setError_keeps_path].
  destruct (probe P m); [|intros [= <-]; apply setError_keeps_path..].
  set (s0 := set_openReaders _ s).
  destruct (malloc_plan_only s0) as (plan1 & Hs2).
  destruct (malloc s0) as [ok1 s2]. simpl in Hs2. subst s2.
  destruct ok1; simpl;
    [|intros [= <-];
      apply (setError_keeps_path t _ (set_malloc_plan plan1 s0))].
  set (s2 := set_malloc_plan plan1 s0).
  destruct (malloc_plan_only s2) as (plan2 & Hs3).
  destruct (malloc s2) as [ok2 s3]. simpl in Hs3. subst s3.
  destruct ok2; simpl.
  - destruct (appendToPath =? 0); simpl; [|done].
    destruct (addToSearchPath_walk fuel (searchPath s) None) as [[prev|]|];
      [|done..].
    destruct (_ !! prev); done.
  - case_decide; [|done]. simpl. intros [= <-].
    match goal with |- context [__PHYSFS_setError t ?e ?x] =>
      apply (setError_keeps_path t e x)
    end.
Qed.

(** When the [malloc] of the node fails, the reader opened for the call
    stays open. *)
Lemma addToSearchPath_node_alloc_fails (fuel : nat) (t : Z) (newDir : string)
    (appendToPath : Z) (s : physfs_state) (plan : list bool) :
  probe P newDir = ProbeOpens → malloc_plan s = false :: plan →
  ∃ s',
    PHYSFS_addToSearchPath P fuel t (Some newDir) appendToPath s
      = Returns 0 s' ∧
    openReaders s' = {[fresh (openReaders s)]} ∪ openReaders s.
Proof.
  intros Hprobe Hplan.
  unfold PHYSFS_addToSearchPath, getDirReader, BAIL, malloc.
  rewrite Hprobe. simpl. rewrite Hplan. simpl.
  eexists. split; [reflexivity|].
  match goal with |- context [__PHYSFS_setError t ?e ?x] =>
    destruct (setError_frame t e x) as (_ & _ & _ & _ & _ & _ & _ & _ & -> & _)
  end. done.
Qed.

End AddFailure.

(** *** Shutting down *)

Lemma freeSearchDir_frees (a : addr) (s s' : physfs_state) (u : unit) :
  freeSearchDir (Some a) s = Returns u s' → sdi_heap s' !! a = None.
Proof.
  unfold freeSearchDir, reader_close.
  destruct (sdi_heap s !! a) as [node|]; [|done].
  case_decide; [|done]. simpl. intros [= _ <-]. simpl.
  apply lookup_delete_eq.
Qed.

Lemma freeSearchDir_freed (a : addr) (s : physfs_state) :
  sdi_heap s !! a = None → freeSearchDir (Some a) s = Faults.
Proof. unfold freeSearchDir. by intros ->. Qed.

(** The loop of [freeSearchPath] comes back to the node it has just freed:
    it does not end. *)
Lemma freeSearchPath_loop_never (fuel : nat) (a : addr) (s : physfs_state) :
  returned (freeSearchPath_loop fuel (Some a) s) = false.
Proof.
  destruct fuel as [|fuel]; [done|]. cbn [freeSearchPath_loop].
  destruct (freeSearchDir (Some a) s) as [u s1| |] eqn:Hfree; cbn [bind];
    [|done..].
  apply freeSearchDir_frees in Hfree.
  destruct fuel as [|fuel]; [done|]. cbn [freeSearchPath_loop].
  by rewrite (freeSearchDir_freed _ _ Hfree).
Qed.

Lemma freeSearchPath_never (fuel : nat) (a : addr) (s : physfs_state) :
  searchPath s = Some a → returned (freeSearchPath fuel s) = false.
Proof.
  intros Hsp. unfold freeSearchPath. rewrite Hsp.
  pose proof (freeSearchPath_loop_never fuel a s) as Hloop.
  by destruct (freeSearchPath_loop fuel (Some a) s).
Qed.

Section Deinit.

Context (P : Platform).

Lemma setWriteDir_null_searchPath (t : Z) (s : physfs_state) :
  searchPath (PHYSFS_setWriteDir P t None s).2 = searchPath s.
Proof.
  unfold PHYSFS_setWriteDir, BAIL.
  destruct (0 <? openWriteCount s); simpl; [apply setError_keeps_path|].
  by destruct (writeDir s).
Qed.

(** [PHYSFS_deinit] does not return once a directory is on the search
    path. *)
Lemma deinit_never_returns (fuel : nat) (t : Z) (s : physfs_state) (a : addr) :
  initialized s ≠ 0 → searchPath s = Some a →
  returned (PHYSFS_deinit P fuel t s) = false.
Proof.
  intros Hinit Hsp. unfold PHYSFS_deinit, closeAllFiles.
  destruct (Z.eqb_spec (initialized s) 0); [done|].
  pose proof (setWriteDir_null_searchPath t s) as Hsp2.
  destruct (PHYSFS_setWriteDir P t None s) as [rc s2]. simpl in Hsp2.
  rewrite Hsp in Hsp2.
  pose proof (freeSearchPath_never fuel a s2 Hsp2) as Hfree.
  by destruct (freeSearchPath fuel s2).
Qed.

(** With an empty search path and no file open for writing,
    [PHYSFS_deinit] returns and leaves no search path, no write directory,
    no error slot, and the library uninitialized. *)
Lemma deinit_empty_path (fuel : nat) (t : Z) (s : physfs_state) :
  initialized s ≠ 0 → searchPath s = None → openWriteCount s ≤ 0 →
  ∃ s',
    PHYSFS_deinit P fuel t s = Returns 1 s' ∧
    searchPath s' = None ∧ writeDir s' = None ∧ errorMessages s' = [] ∧
    initialized s' = 0 ∧ allowSymLinks s' = 0.
Proof.
  intros Hinit Hsp Hopen. unfold PHYSFS_deinit, closeAllFiles.
  destruct (Z.eqb_spec (initialized s) 0); [done|].
  unfold PHYSFS_setWriteDir.
  destruct (Z.ltb_spec 0 (openWriteCount s)); [lia|].
  unfold freeSearchPath.
  destruct (writeDir s) eqn:Hw; simpl; rewrite Hsp; simpl;
    eexists; (split; [reflexivity|]); simpl; done.
Qed.

End Deinit.

(** C4: with one directory on the search path, [PHYSFS_deinit] does not
    return, whatever the fuel; given fuel for two rounds of the loop of
    [freeSearchPath] it stops on the node that the first round freed. *)
Theorem deinit_mounted :
  initialized mounted = 1 ∧
  verdict_of (PHYSFS_getSearchPath 2 1 mounted) = Value (Some ["/data"]) ∧
  (∀ fuel, returned (PHYSFS_deinit unix_host fuel 1 mounted) = false) ∧
  verdict_of (PHYSFS_deinit unix_host 2 1 mounted) = Faulted.
Proof.
  split; [reflexivity|]. split; [reflexivity|]. split; [|reflexivity].
  intros fuel. by eapply deinit_never_returns.
Qed.

(** ** Path translation *)

Section Blocks.

Local Open Scope list_scope.

Implicit Types (b pre rest : list (option ascii)) (str src : string).

Lemma length_bytes str : length (bytes str) = String.length str.
Proof. induction str; simpl; congruence. Qed.

Lemma bytes_app str1 str2 : bytes (str1 +:+ str2) = bytes str1 ++ bytes str2.
Proof. induction str1; simpl; [done|congruence]. Qed.

Lemma no_char_app c str1 str2 :
  no_char c (str1 +:+ str2) = no_char c str1 && no_char c str2.
Proof.
  induction str1 as [|c' str1 IH]; simpl; [done|].
  rewrite IH. by destruct (negb _).
Qed.

Lemma poke_app pre rest c :
  (0 < length rest)%nat →
  poke (pre ++ rest) (length pre) c = Some (pre ++ Some c :: drop 1 rest).
Proof.
  intros Hlen. destruct rest as [|x rest]; simpl in Hlen; [lia|].
  unfold poke. rewrite decide_True by (rewrite length_app; simpl; lia).
  f_equal. replace (length pre) with (length pre + 0)%nat at 1 by lia.
  by rewrite insert_app_r.
Qed.

Lemma c_strcpy_app src pre rest :
  (String.length src < length rest)%nat →
  c_strcpy (pre ++ rest) (length pre) src
    = Some (pre ++ bytes src ++ Some NUL :: drop (S (String.length src)) rest).
Proof.
  revert pre rest. induction src as [|c src IH]; intros pre rest Hlen; simpl.
  - by apply poke_app.
  - simpl in Hlen. rewrite poke_app by lia. simpl.
    replace (pre ++ Some c :: drop 1 rest)
      with ((pre ++ [Some c]) ++ drop 1 rest) by (by rewrite <- app_assoc).
    replace (S (length pre)) with (length (pre ++ [Some c]))
      by (rewrite length_app; simpl; lia).
    rewrite IH by (rewrite length_drop; lia).
    rewrite drop_drop, <- app_assoc. simpl. done.
Qed.

Lemma c_strlen_bytes str rest :
  no_char NUL str = true →
  c_strlen (bytes str ++ Some NUL :: rest) = Some (String.length str).
Proof.
  induction str as [|c str IH]; simpl; intros Hnul.
  - done.
  - apply andb_true_iff in Hnul as [Hc Hstr].
    apply negb_true_iff, bool_decide_eq_false_1 in Hc.
    rewrite decide_False by done. by rewrite IH.
Qed.

Lemma c_str_bytes str rest :
  no_char NUL str = true → c_str (bytes str ++ Some NUL :: rest) = Some str.
Proof.
  induction str as [|c str IH]; simpl; intros Hnul.
  - done.
  - apply andb_true_iff in Hnul as [Hc Hstr].
    apply negb_true_iff, bool_decide_eq_false_1 in Hc.
    rewrite decide_False by done. by rewrite IH.
Qed.

(** Without a slash in [dirName] the copying loop copies. *)
Lemma convert_loop_plain dirsep src pre rest :
  no_char "/" src = true →
  (String.length src ≤ length rest)%nat →
  convert_loop dirsep src (length pre) (pre ++ rest)
    = Some ((length pre + String.length src)%nat,
            pre ++ bytes src ++ drop (String.length src) rest).
Proof.
  revert pre rest. induction src as [|c src IH]; intros pre rest Hplain Hlen;
    simpl.
  - by rewrite Nat.add_0_r.
  - simpl in Hplain, Hlen. apply andb_true_iff in Hplain as [Hc Hsrc].
    apply negb_true_iff, bool_decide_eq_false_1 in Hc.
    rewrite decide_False by done.
    rewrite poke_app by lia. simpl.
    replace (pre ++ Some c :: drop 1 rest)
      with ((pre ++ [Some c]) ++ drop 1 rest) by (by rewrite <- app_assoc).
    replace (S (length pre)) with (length (pre ++ [Some c]))
      by (rewrite length_app; simpl; lia).
    rewrite IH by (done || rewrite length_drop; lia).
    rewrite drop_drop, <- app_assoc, length_app. simpl.
    do 2 f_equal. lia.
Qed.

Lemma convert_allocSize_plain sepsize src n :
  no_char "/" src = true → convert_allocSize sepsize src n = n.
Proof.
  revert n. induction src as [|c src IH]; intros n Hplain; simpl; [done|].
  simpl in Hplain. apply andb_true_iff in Hplain as [Hc Hsrc].
  apply negb_true_iff, bool_decide_eq_false_1 in Hc.
  rewrite decide_False by done. by apply IH.
Qed.

Lemma String_append_assoc (a b c : string) : (a +:+ b) +:+ c = a +:+ b +:+ c.
Proof.
  induction a as [|x a IH]; [done|].
  change (String x ((a +:+ b) +:+ c) = String x (a +:+ b +:+ c)).
  by rewrite IH.
Qed.

Lemma fill_plain (dirsep w p : string) (b : list (option ascii)) :
  no_char NUL w = true → no_char NUL dirsep = true → no_char NUL p = true →
  no_char "/" p = true →
  (String.length w + String.length dirsep + String.length p < length b)%nat →
  (str ← poke b 0 NUL;
   str ← (str ← c_strcpy str 0 w; c_strcat str dirsep);
   n ← c_strlen str;
   '(i2, str) ← convert_loop dirsep p n str;
   str ← poke str i2 NUL;
   str ← Some str;
   c_str str) = Some (w +:+ dirsep +:+ p).
Proof.
  intros Hw Hsep Hp Hplain Hlen.
  pose proof (poke_app [] b NUL) as Hpoke.
  cbn [app length] in Hpoke. rewrite Hpoke by lia. cbn [mbind option_bind].
  set (b1 := Some NUL :: drop 1 b).
  assert (Hb1 : length b1 = length b) by (subst b1; cbn [length]; rewrite length_drop; lia).
  pose proof (c_strcpy_app w [] b1) as Hcpy.
  cbn [app length] in Hcpy. rewrite Hcpy by lia. cbn [mbind option_bind].
  unfold c_strcat. rewrite c_strlen_bytes by done. cbn [mbind option_bind].
  set (r1 := Some NUL :: drop (S (String.length w)) b1).
  assert (Hr1 : (length r1 = length b - String.length w)%nat)
    by (subst r1; cbn [length]; rewrite length_drop; lia).
  pose proof (c_strcpy_app dirsep (bytes w) r1) as Hcat.
  rewrite length_bytes in Hcat. rewrite Hcat by lia. cbn [mbind option_bind].
  rewrite List.app_assoc, <- bytes_app.
  assert (Hpre : no_char NUL (w +:+ dirsep) = true)
    by (by rewrite no_char_app, Hw, Hsep).
  rewrite c_strlen_bytes by done. cbn [mbind option_bind].
  set (r2 := Some NUL :: drop (S (String.length dirsep)) r1).
  assert (Hr2 : (length r2 = length r1 - String.length dirsep)%nat)
    by (subst r2; cbn [length]; rewrite length_drop; lia).
  pose proof (convert_loop_plain dirsep p (bytes (w +:+ dirsep)) r2 Hplain)
    as Hloop.
  rewrite length_bytes in Hloop. rewrite Hloop by lia.
  cbn [mbind option_bind].
  pose proof (poke_app (bytes (w +:+ dirsep) ++ bytes p)
                (drop (String.length p) r2) NUL) as Hend.
  rewrite length_app, !length_bytes, <- List.app_assoc in Hend.
  rewrite Hend by (rewrite length_drop; lia). cbn [mbind option_bind].
  rewrite <- bytes_app.
  rewrite c_str_bytes by (by rewrite no_char_app, Hpre, Hp).
  by rewrite String_append_assoc.
Qed.

End Blocks.

Section Translate.

Context (P : Platform).

(** A name without a slash is put after the write directory and a
    separator, whatever else it holds. *)
Lemma convertToDependentNotation_plain (t : Z) (w p : string)
    (s : physfs_state) :
  writeDir s = Some w →
  no_char NUL w = true → no_char NUL (PHYSFS_getDirSeparator P) = true →
  no_char NUL p = true → no_char "/" p = true →
  (malloc s).1 = true →
  convertToDependentNotation P t (Some w) p None s
    = Returns (Some (w +:+ PHYSFS_getDirSeparator P +:+ p)) (malloc s).2.
Proof.
  intros Hwd Hw Hsep Hp Hplain Hok.
  unfold convertToDependentNotation. rewrite Hwd.
  destruct (malloc s) as [ok s1]. simpl in Hok. subst ok.
  cbv beta iota zeta. rewrite convert_allocSize_plain by done.
  set (n := (_ + _)%nat).
  assert (Hn : (String.length w + String.length (PHYSFS_getDirSeparator P)
                + String.length p < n)%nat) by (subst n; unfold strlen; lia).
  replace (if decide (1 < strlen (PHYSFS_getDirSeparator P))%nat then n else n)
    with n by (by destruct (decide _)).
  rewrite fill_plain by (done || by rewrite length_replicate).
  done.
Qed.

End Translate.

Section Unvalidated.

Context (P : Platform).

(** C2, amended: [PHYSFS_mkdir] and [PHYSFS_delete] do not inspect the
    logical path.  Without a write directory they fail with [NoWriteDir]
    for every path and ask nothing of the host.  With the write directory
    [w], memory for the translation and a path [p] without a slash (it may
    be [.] or [..], or hold a backslash or a colon), they hand [w], the
    separator and [p] to the host, [createDirs_dependent] for the one and
    [remove] for the other, and return the host's verdict. *)
Theorem mkdir_delete_unvalidated (t : Z) (p0 p w : string)
    (s0 s : physfs_state) :
  writeDir s0 = None →
  writeDir s = Some w →
  no_char NUL w = true → no_char NUL (PHYSFS_getDirSeparator P) = true →
  no_char NUL p = true → no_char "/" p = true →
  (malloc s).1 = true →
  let str := w +:+ PHYSFS_getDirSeparator P +:+ p in
  PHYSFS_mkdir P t p0 s0 = Returns 0 (__PHYSFS_setError t ERR_NO_WRITE_DIR s0) ∧
  PHYSFS_delete P t p0 s0 = Returns 0 (__PHYSFS_setError t ERR_NO_WRITE_DIR s0) ∧
  host_trace (__PHYSFS_setError t ERR_NO_WRITE_DIR s0) = host_trace s0 ∧
  PHYSFS_mkdir P t p s
    = Returns (createDirs_dependent P (host_trace s) str)
        (set_host_trace (HostCreateDirs str :: host_trace s) (malloc s).2) ∧
  ∃ s2,
    PHYSFS_delete P t p s
      = Returns (if (libc_remove P (host_trace s) str).1 =? 0 then 1 else 0) s2 ∧
    host_trace s2 = HostRemove str :: host_trace s.
Proof.
  intros Hnone Hwd Hw Hsep Hp Hplain Hok str.
  assert (Htrace : host_trace (malloc s).2 = host_trace s).
  { destruct (malloc_plan_only s) as (plan & ->). done. }
  pose proof (convertToDependentNotation_plain P t w p s Hwd Hw Hsep Hp
                Hplain Hok) as Hconv.
  fold str in Hconv. destruct (malloc s) as [ok s1].
  cbn [fst snd] in Hok, Htrace, Hconv |- *.
  split; [|split; [|split; [|split]]].
  - unfold PHYSFS_mkdir, BAIL. by rewrite Hnone.
  - unfold PHYSFS_delete, BAIL. by rewrite Hnone.
  - apply setError_frame.
  - unfold PHYSFS_mkdir. rewrite Hwd, Hconv. cbn [bind]. by rewrite Htrace.
  - unfold PHYSFS_delete. rewrite Hwd, Hconv. cbn [bind]. rewrite Htrace.
    destruct (libc_remove P (host_trace s) str) as [rc msg]. cbn [fst].
    destruct (rc =? 0); cbn [Z.eqb]; eexists; (split; [reflexivity|]).
    + done.
    + match goal with |- context [__PHYSFS_setError t ?e ?x] =>
        destruct (setError_frame t e x) as (_&_&_&_&_&_&_&_&_& ->)
      end. done.
Qed.

End Unvalidated.

Lemma mkdir_delete_unvalidated_witness :
  writeDir ready = None ∧
  writeDir ready_w = Some "/w" ∧
  no_char NUL "/w" = true ∧
  no_char NUL (PHYSFS_getDirSeparator unix_host) = true ∧
  no_char NUL ".." = true ∧ no_char "/" ".." = true ∧
  (malloc ready_w).1 = true ∧
  PHYSFS_mkdir unix_host 1 "a/../b" ready
    = Returns 0 (__PHYSFS_setError 1 ERR_NO_WRITE_DIR ready) ∧
  PHYSFS_delete unix_host 1 "a/../b" ready
    = Returns 0 (__PHYSFS_setError 1 ERR_NO_WRITE_DIR ready) ∧
  host_trace (__PHYSFS_setError 1 ERR_NO_WRITE_DIR ready) = host_trace ready ∧
  PHYSFS_mkdir unix_host 1 ".." ready_w
    = Returns
        (createDirs_dependent unix_host (host_trace ready_w)
           ("/w" +:+ PHYSFS_getDirSeparator unix_host +:+ ".."))
        (set_host_trace
           (HostCreateDirs ("/w" +:+ PHYSFS_getDirSeparator unix_host +:+ "..")
              :: host_trace ready_w) (malloc ready_w).2) ∧
  ∃ s2,
    PHYSFS_delete unix_host 1 ".." ready_w
      = Returns
          (if (libc_remove unix_host (host_trace ready_w)
                 ("/w" +:+ PHYSFS_getDirSeparator unix_host +:+ "..")).1 =? 0
           then 1 else 0) s2 ∧
    host_trace s2
      = HostRemove ("/w" +:+ PHYSFS_getDirSeparator unix_host +:+ "..")
          :: host_trace ready_w.
Proof.
  do 7 (split; [reflexivity|]).
  apply (mkdir_delete_unvalidated unix_host 1 "a/../b" ".." "/w" ready ready_w);
    reflexivity.
Defined.

(** C2 as stated fails: with the write directory [/w], [PHYSFS_mkdir] and
    [PHYSFS_delete] of [..] and of a name with a backslash and a colon
    succeed, set no error, and have the host create or remove the
    path. *)
Lemma mkdir_dotdot_accepted :
  verdict_of (PHYSFS_mkdir unix_host 1 ".." ready_w) = Value 1 ∧
  host_trace (run (PHYSFS_mkdir unix_host 1 ".." ready_w))
    = HostCreateDirs "/w/.." :: host_trace ready_w ∧
  (PHYSFS_getLastError 1 (run (PHYSFS_mkdir unix_host 1 ".." ready_w))).1
    = None ∧
  verdict_of (PHYSFS_delete unix_host 1 ".." ready_w) = Value 1 ∧
  host_trace (run (PHYSFS_delete unix_host 1 ".." ready_w))
    = HostRemove "/w/.." :: host_trace ready_w ∧
  (PHYSFS_getLastError 1 (run (PHYSFS_delete unix_host 1 ".." ready_w))).1
    = None ∧
  verdict_of (PHYSFS_mkdir unix_host 1 "c:\." ready_w) = Value 1 ∧
  host_trace (run (PHYSFS_mkdir unix_host 1 "c:\." ready_w))
    = HostCreateDirs "/w/c:\." :: host_trace ready_w ∧
  (PHYSFS_getLastError 1 (run (PHYSFS_mkdir unix_host 1 ".." ready))).1
    = Some ERR_NO_WRITE_DIR.
Proof. repeat split; vm_compute; reflexivity. Qed.

(** ** More on the error channel *)

Lemma findError_from_miss (t : Z) (l : list ErrMsg) :
  findError_from t l = None → t ∉ tid <$> l.
Proof.
  induction l as [|e l IH]; simpl; [intros _; apply not_elem_of_nil|].
  destruct (Z.eqb_spec (tid e) t) as [|Hne]; [done|].
  destruct (findError_from t l); [done|]. intros _.
  apply not_elem_of_cons. split; [congruence|by apply IH].
Qed.

Lemma slot_threads_insert (l : list ErrMsg) (k : nat) (e e' : ErrMsg) :
  l !! k = Some e → tid e' = tid e → tid <$> <[k := e']> l = tid <$> l.
Proof.
  intros Hk Ht. rewrite list_fmap_insert, Ht.
  apply list_insert_id. by rewrite list_lookup_fmap, Hk.
Qed.

(** What [PHYSFS_getLastError] does to the slot list. *)
Lemma getLastError_errorMessages (t : Z) (s : physfs_state) :
  (PHYSFS_getLastError t s).2 = s ∨
  ∃ k e, errorMessages s !! k = Some e ∧
    (PHYSFS_getLastError t s).2 =
      set_errorMessages
        (<[k := mkErrMsg (tid e) 0 (errorString e)]> (errorMessages s)) s.
Proof.
  unfold PHYSFS_getLastError.
  destruct (findErrorForCurrentThread t s) as [k|]; [|by left].
  destruct (errorMessages s !! k) as [e|] eqn:Hk; [|by left].
  destruct (errorAvailable e =? 0); [by left|].
  right. by exists k, e.
Qed.

Lemma getLastError_keeps_slots (t t' : Z) (s : physfs_state) :
  findError_from t' (errorMessages (PHYSFS_getLastError t s).2)
    = findError_from t' (errorMessages s) ∧
  malloc_plan (PHYSFS_getLastError t s).2 = malloc_plan s ∧
  length (errorMessages (PHYSFS_getLastError t s).2)
    = length (errorMessages s).
Proof.
  destruct (getLastError_errorMessages t s) as [->|(k & e & Hk & ->)]; [done|].
  simpl. rewrite length_insert. split; [|done].
  by apply (findError_from_insert _ _ _ e).
Qed.

Lemma setError_has_slot (t : Z) (str : string) (s : physfs_state) :
  slot_obtainable t s = true →
  is_Some (findErrorForCurrentThread t (__PHYSFS_setError t str s)).
Proof.
  intros Hroom. apply setError_pending with (str := str) in Hroom.
  rewrite findErrorForCurrentThread_walk. unfold pending_message in Hroom.
  destruct (findError_from t _); [by eexists|done].
Qed.

Lemma slot_obtainable_of_slot (t : Z) (s : physfs_state) :
  is_Some (findErrorForCurrentThread t s) → slot_obtainable t s = true.
Proof.
  intros Hslot. unfold slot_obtainable.
  by rewrite bool_decide_eq_true_2.
Qed.

(** X1: a second error of a thread replaces the first: after two calls of
    [__PHYSFS_setError], [PHYSFS_getLastError] returns the message of the
    second. *)
Theorem setError_latest_wins (t : Z) (str1 str2 : string) (s : physfs_state) :
  slot_obtainable t s = true →
  (PHYSFS_getLastError t
     (__PHYSFS_setError t str2 (__PHYSFS_setError t str1 s))).1
    = Some (store_errorString str2).
Proof.
  intros Hroom. apply setError_collect, slot_obtainable_of_slot.
  by apply setError_has_slot.
Qed.

Lemma setError_latest_wins_witness :
  slot_obtainable 1 boot = true ∧
  (PHYSFS_getLastError 1
     (__PHYSFS_setError 1 ERR_NO_WRITE_DIR
        (__PHYSFS_setError 1 ERR_OUT_OF_MEMORY boot))).1
    = Some (store_errorString ERR_NO_WRITE_DIR).
Proof.
  split; [reflexivity|].
  apply (setError_latest_wins 1 ERR_OUT_OF_MEMORY ERR_NO_WRITE_DIR boot).
  reflexivity.
Defined.

(** X2: the slot of a thread is kept and reused.  Once thread [t] has a
    slot, reading its error leaves the slot in the list, and a later
    [__PHYSFS_setError] of [t] stores its message in it without calling
    [malloc]: it takes effect whatever the allocator would answer, and the
    list does not grow. *)
Theorem setError_reuses_slot (t : Z) (str : string) (plan : list bool)
    (s : physfs_state) :
  is_Some (findErrorForCurrentThread t s) →
  let s1 := set_malloc_plan plan (PHYSFS_getLastError t s).2 in
  let s2 := __PHYSFS_setError t str s1 in
  (PHYSFS_getLastError t s2).1 = Some (store_errorString str) ∧
  malloc_plan s2 = plan ∧
  length (errorMessages s2) = length (errorMessages s).
Proof.
  intros Hslot s1 s2.
  destruct (getLastError_keeps_slots t t s) as (Hfind & _ & Hlen).
  assert (Hslot1 : is_Some (findErrorForCurrentThread t s1)).
  { rewrite findErrorForCurrentThread_walk in Hslot |- *. subst s1. simpl.
    by rewrite Hfind. }
  split; [by apply setError_collect, slot_obtainable_of_slot|].
  subst s2. unfold __PHYSFS_setError.
  destruct Hslot1 as [k Hk]. rewrite Hk.
  rewrite findErrorForCurrentThread_walk in Hk.
  destruct (findError_from_hit _ _ _ Hk) as (e & -> & _). simpl.
  by rewrite length_insert.
Qed.

Lemma setError_reuses_slot_witness :
  is_Some (findErrorForCurrentThread 1
             (__PHYSFS_setError 1 ERR_NO_WRITE_DIR boot)) ∧
  let s1 :=
    set_malloc_plan [false]
      (PHYSFS_getLastError 1 (__PHYSFS_setError 1 ERR_NO_WRITE_DIR boot)).2 in
  let s2 := __PHYSFS_setError 1 ERR_OUT_OF_MEMORY s1 in
  (PHYSFS_getLastError 1 s2).1 = Some (store_errorString ERR_OUT_OF_MEMORY) ∧
  malloc_plan s2 = [false] ∧
  length (errorMessages s2)
    = length (errorMessages (__PHYSFS_setError 1 ERR_NO_WRITE_DIR boot)).
Proof.
  split; [by eexists|].
  apply (setError_reuses_slot 1 ERR_OUT_OF_MEMORY [false]
           (__PHYSFS_setError 1 ERR_NO_WRITE_DIR boot)).
  by eexists.
Defined.

(** X3: no thread ever has two slots.  When the threads of the slot list
    are pairwise distinct, they still are after an [__PHYSFS_setError] and
    after a [PHYSFS_getLastError] of any thread. *)
Theorem error_slots_one_per_thread (t : Z) (str : string) (s : physfs_state) :
  NoDup (slot_threads s) →
  NoDup (slot_threads (__PHYSFS_setError t str s)) ∧
  NoDup (slot_threads (PHYSFS_getLastError t s).2).
Proof.
  unfold slot_threads. intros Hnodup. split.
  - rewrite setError_errorMessages.
    destruct (findError_from t (errorMessages s)) as [k|] eqn:Hfind.
    + destruct (findError_from_hit _ _ _ Hfind) as (e & Hk & Ht).
      by rewrite (slot_threads_insert _ _ e).
    + destruct (malloc s).1; [|done]. simpl.
      apply NoDup_cons. split; [by apply findError_from_miss|done].
  - destruct (getLastError_errorMessages t s) as [->|(k & e & Hk & ->)];
      [done|].
    simpl. by rewrite (slot_threads_insert _ _ e).
Qed.

Lemma error_slots_one_per_thread_witness :
  NoDup (slot_threads (__PHYSFS_setError 2 ERR_NO_WRITE_DIR boot)) ∧
  NoDup (slot_threads
           (__PHYSFS_setError 1 ERR_OUT_OF_MEMORY
              (__PHYSFS_setError 2 ERR_NO_WRITE_DIR boot))) ∧
  NoDup (slot_threads
           (PHYSFS_getLastError 1
              (__PHYSFS_setError 2 ERR_NO_WRITE_DIR boot)).2).
Proof.
  assert (H : NoDup (slot_threads (__PHYSFS_setError 2 ERR_NO_WRITE_DIR boot)))
    by (apply NoDup_singleton).
  split; [exact H|].
  exact (error_slots_one_per_thread 1 ERR_OUT_OF_MEMORY
           (__PHYSFS_setError 2 ERR_NO_WRITE_DIR boot) H).
Defined.

(** X4: the first error of a thread is lost when memory is short.  For a
    thread without a slot, when [malloc] fails, [__PHYSFS_setError] changes
    nothing but the allocator, and a [PHYSFS_getLastError] that follows
    returns nothing. *)
Theorem setError_out_of_memory (t : Z) (str : string) (plan : list bool)
    (s : physfs_state) :
  findErrorForCurrentThread t s = None →
  malloc_plan s = false :: plan →
  __PHYSFS_setError t str s = set_malloc_plan plan s ∧
  (PHYSFS_getLastError t (__PHYSFS_setError t str s)).1 = None.
Proof.
  intros Hnone Hplan.
  assert (Hset : __PHYSFS_setError t str s = set_malloc_plan plan s).
  { unfold __PHYSFS_setError, malloc. by rewrite Hnone, Hplan. }
  split; [done|]. rewrite Hset. unfold PHYSFS_getLastError.
  rewrite findErrorForCurrentThread_walk in Hnone |- *. simpl.
  by rewrite Hnone.
Qed.

Lemma setError_out_of_memory_witness :
  findErrorForCurrentThread 1 starved = None ∧
  malloc_plan starved = [false] ∧
  __PHYSFS_setError 1 ERR_NO_WRITE_DIR starved = set_malloc_plan [] starved ∧
  (PHYSFS_getLastError 1 (__PHYSFS_setError 1 ERR_NO_WRITE_DIR starved)).1
    = None.
Proof.
  split; [reflexivity|]. split; [reflexivity|].
  apply (setError_out_of_memory 1 ERR_NO_WRITE_DIR [] starved); reflexivity.
Defined.

Lemma store_errorString_cut (str : string) :
  (String.length (store_errorString str) ≤ 79)%nat ∧
  ∃ rest, str = store_errorString str +:+ rest.
Proof.
  unfold store_errorString. generalize 79%nat. intros n. revert str.
  induction n as [|n IH]; intros str.
  - destruct str; simpl; (split; [lia|]); by eexists.
  - destruct str as [|c str]; simpl.
    + split; [lia|]. by exists "".
    + destruct (IH str) as (Hlen & rest & Hrest). split; [lia|].
      exists rest. change (String c str = String c (String.substring 0 n str +:+ rest)).
      by rewrite <- Hrest.
Qed.

(** X5: what [PHYSFS_getLastError] returns right after an
    [__PHYSFS_setError] of the same thread is never a stale message: it is
    the message just set, cut to the 79 bytes that fit the slot, hence a
    prefix of it. *)
Theorem getLastError_after_set (t : Z) (str msg : string) (s : physfs_state) :
  (PHYSFS_getLastError t (__PHYSFS_setError t str s)).1 = Some msg →
  msg = store_errorString str ∧
  (String.length msg ≤ 79)%nat ∧
  ∃ rest, str = msg +:+ rest.
Proof.
  rewrite getLastError_value, setError_errorMessages. intros Hmsg.
  assert (Heq : msg = store_errorString str).
  { destruct (findError_from t (errorMessages s)) as [k|] eqn:Hfind.
    - rewrite pending_message_insert_same in Hmsg by done. congruence.
    - destruct (malloc s).1.
      + unfold pending_message in Hmsg. simpl in Hmsg.
        rewrite Z.eqb_refl in Hmsg. simpl in Hmsg. congruence.
      + unfold pending_message in Hmsg. by rewrite Hfind in Hmsg. }
  subst msg. split; [done|]. apply store_errorString_cut.
Qed.

Lemma getLastError_after_set_witness :
  (PHYSFS_getLastError 1 (__PHYSFS_setError 1 ERR_NO_WRITE_DIR boot)).1
    = Some ERR_NO_WRITE_DIR ∧
  ERR_NO_WRITE_DIR = store_errorString ERR_NO_WRITE_DIR ∧
  (String.length ERR_NO_WRITE_DIR ≤ 79)%nat ∧
  ∃ rest, ERR_NO_WRITE_DIR = ERR_NO_WRITE_DIR +:+ rest.
Proof.
  split; [reflexivity|].
  apply (getLastError_after_set 1 ERR_NO_WRITE_DIR ERR_NO_WRITE_DIR boot).
  reflexivity.
Defined.

(** X6: reading the error of one thread leaves the errors of the others:
    after a [PHYSFS_getLastError] of thread [t], a [PHYSFS_getLastError] of
    another thread [t'] returns what it would have returned before. *)
Theorem getLastError_other_thread (t t' : Z) (s : physfs_state) :
  t ≠ t' →
  (PHYSFS_getLastError t' (PHYSFS_getLastError t s).2).1
    = (PHYSFS_getLastError t' s).1.
Proof.
  intros Hne. rewrite !getLastError_value.
  unfold PHYSFS_getLastError at 1. rewrite findErrorForCurrentThread_walk.
  destruct (findError_from t (errorMessages s)) as [k|] eqn:Hfind; [|done].
  destruct (findError_from_hit _ _ _ Hfind) as (e & Hk & Ht). rewrite Hk.
  destruct (errorAvailable e =? 0); [done|]. simpl.
  apply (pending_message_insert_other _ _ _ e); simpl; congruence.
Qed.

Lemma getLastError_other_thread_witness :
  (1 : Z) ≠ 2 ∧
  (PHYSFS_getLastError 2
     (PHYSFS_getLastError 1
        (__PHYSFS_setError 1 ERR_OUT_OF_MEMORY
           (__PHYSFS_setError 2 ERR_NO_WRITE_DIR boot))).2).1
    = (PHYSFS_getLastError 2
         (__PHYSFS_setError 1 ERR_OUT_OF_MEMORY
            (__PHYSFS_setError 2 ERR_NO_WRITE_DIR boot))).1.
Proof.
  split; [discriminate|]. apply getLastError_other_thread. discriminate.
Defined.

(** ** Starting up and shutting down *)

Lemma setError_same (t : Z) (str : string) (s : physfs_state) :
  same_but_errors s (__PHYSFS_setError t str s).
Proof. apply setError_frame. Qed.

Lemma free_writeDir (s : physfs_state) :
  match writeDir s with Some _ => set_writeDir None s | None => s end
    = set_writeDir None s.
Proof. destruct s as [? ? ? ? w ? ? ? ? ? ? ?]. by destruct w. Qed.

Lemma setError_then_getLastError (t : Z) (str : string) (s : physfs_state) :
  slot_in_reach t s = true →
  (PHYSFS_getLastError t (__PHYSFS_setError t str s)).1
    = Some (store_errorString str).
Proof.
  intros Hreach%slot_in_reach_obtainable.
  destruct (getLastError_take t _ _ (setError_pending t str s Hreach))
    as (s1 & -> & _). done.
Qed.

Lemma setError_lost (t : Z) (str : string) (s : physfs_state) :
  slot_in_reach t s = false →
  (PHYSFS_getLastError t (__PHYSFS_setError t str s)).1 = None.
Proof.
  unfold slot_in_reach. intros Hout.
  apply orb_false_iff in Hout as [Hslot Hmem].
  apply bool_decide_eq_false_1 in Hslot.
  assert (Hnone : findError_from t (errorMessages s) = None).
  { destruct (findError_from t (errorMessages s)) as [k|] eqn:Hfind; [|done].
    destruct (findError_from_hit _ _ _ Hfind) as (e & Hk & Ht).
    destruct Hslot. unfold slot_threads. apply list_elem_of_fmap.
    exists e. split; [done|]. by eapply list_elem_of_lookup_2. }
  unfold __PHYSFS_setError, PHYSFS_getLastError.
  rewrite !findErrorForCurrentThread_walk, Hnone.
  unfold malloc in Hmem |- *.
  destruct (malloc_plan s) as [|[] plan] eqn:Hplan; simpl in Hmem; try done.
  unfold findErrorForCurrentThread. simpl.
  destruct (errorMessages s); [done|]. by rewrite Hnone.
Qed.

Section LifeCycle.

Context (P : Platform).

(** X7: [PHYSFS_init] works once.  On an uninitialized library a call
    with a program name returns 1, sets the flag and the base directory and
    touches no error slot; every further call, by any thread and with any
    argument, returns 0 with [IsInitialized] and leaves the base directory
    in place. *)
Theorem init_twice (t : Z) (argv0 : string) (s : physfs_state) :
  initialized s = 0 →
  ∃ s1,
    PHYSFS_init P t (Some argv0) s = (1, s1) ∧
    initialized s1 = 1 ∧
    PHYSFS_getBaseDir s1 = calculateBaseDir P ∧
    errorMessages s1 = errorMessages s ∧
    ∀ t' argv0',
      PHYSFS_init P t' argv0' s1
        = (0, __PHYSFS_setError t' ERR_IS_INITIALIZED s1) ∧
      PHYSFS_getBaseDir (__PHYSFS_setError t' ERR_IS_INITIALIZED s1)
        = calculateBaseDir P.
Proof.
  intros Huninit. eexists. split.
  { unfold PHYSFS_init. by rewrite Huninit. }
  simpl. do 3 (split; [done|]). intros t' argv0'. split; [done|].
  unfold PHYSFS_getBaseDir.
  match goal with |- context [__PHYSFS_setError t' ?e ?x] =>
    destruct (setError_same t' e x) as (_ & _ & -> & _)
  end. done.
Qed.

(** X8: shutting down a library with an empty search path and no file
    open for writing returns 1 and leaves no search path, no write
    directory and no error slot; a second [PHYSFS_deinit] then fails with
    [NotInitialized], and a [PHYSFS_init] succeeds again. *)
Theorem deinit_then_init (fuel : nat) (t : Z) (s : physfs_state) :
  initialized s ≠ 0 → searchPath s = None → openWriteCount s ≤ 0 →
  ∃ s1,
    PHYSFS_deinit P fuel t s = Returns 1 s1 ∧
    searchPath s1 = None ∧ writeDir s1 = None ∧ errorMessages s1 = [] ∧
    (∀ fuel' t',
       PHYSFS_deinit P fuel' t' s1
         = Returns 0 (__PHYSFS_setError t' ERR_NOT_INITIALIZED s1)) ∧
    ∀ t' argv0, (PHYSFS_init P t' (Some argv0) s1).1 = 1.
Proof.
  intros Hinit Hsp Hopen.
  destruct (deinit_empty_path P fuel t s Hinit Hsp Hopen)
    as (s1 & Hdeinit & Hsp1 & Hw1 & He1 & Hi1 & _).
  exists s1. do 4 (split; [done|]). split.
  - intros fuel' t'. unfold PHYSFS_deinit, BAIL. by rewrite Hi1.
  - intros t' argv0. unfold PHYSFS_init. by rewrite Hi1.
Qed.

(** X9: [PHYSFS_deinit] closes no file.  With an empty search path and
    a file open for writing it returns 1 and leaves the library
    uninitialized, and the write directory and the count of open writers
    are what they were. *)
Theorem deinit_keeps_write_dir (fuel : nat) (t : Z) (s : physfs_state) :
  initialized s ≠ 0 → searchPath s = None → 0 < openWriteCount s →
  ∃ s1,
    PHYSFS_deinit P fuel t s = Returns 1 s1 ∧
    initialized s1 = 0 ∧
    PHYSFS_getWriteDir s1 = PHYSFS_getWriteDir s ∧
    openWriteCount s1 = openWriteCount s ∧
    errorMessages s1 = [].
Proof.
  intros Hinit Hsp Hopen. unfold PHYSFS_deinit, closeAllFiles.
  destruct (Z.eqb_spec (initialized s) 0); [done|].
  unfold PHYSFS_setWriteDir, BAIL.
  destruct (Z.ltb_spec 0 (openWriteCount s)); [|lia].
  destruct (setError_same t ERR_FILES_OPEN_WRITE s)
    as (_ & Hsp2 & _ & Hw2 & _ & Ho2 & _).
  unfold freeSearchPath. rewrite Hsp2, Hsp. simpl.
  eexists. split; [reflexivity|]. simpl. done.
Qed.

(** X10: with no file open for writing, a directory the host can create
    and memory for its name, [PHYSFS_setWriteDir] returns 1 and
    [PHYSFS_getWriteDir] then gives that directory, whatever the write
    directory was; the host was asked once, to create the directory, and no
    error was set. *)
Theorem setWriteDir_get (t : Z) (newDir : string) (s : physfs_state) :
  openWriteCount s ≤ 0 →
  createDirs_dependent P (host_trace s) newDir ≠ 0 →
  (malloc s).1 = true →
  ∃ s1,
    PHYSFS_setWriteDir P t (Some newDir) s = (1, s1) ∧
    PHYSFS_getWriteDir s1 = Some newDir ∧
    host_trace s1 = HostCreateDirs newDir :: host_trace s ∧
    errorMessages s1 = errorMessages s ∧
    searchPath s1 = searchPath s.
Proof.
  intros Hopen Hrc Hok. unfold PHYSFS_setWriteDir.
  destruct (Z.ltb_spec 0 (openWriteCount s)); [lia|].
  set (s1 := match writeDir s with Some _ => _ | None => s end).
  assert (Hs1 : host_trace s1 = host_trace s ∧ malloc_plan s1 = malloc_plan s ∧
                errorMessages s1 = errorMessages s ∧
                searchPath s1 = searchPath s)
    by (subst s1; by destruct (writeDir s)).
  destruct Hs1 as (Ht1 & Hp1 & He1 & Hsp1). rewrite Ht1.
  destruct (Z.eqb_spec (createDirs_dependent P (host_trace s) newDir) 0);
    [done|].
  unfold malloc in Hok |- *. simpl. rewrite Hp1.
  destruct (malloc_plan s) as [|[] plan]; simpl in Hok; try done;
    eexists; (split; [reflexivity|]); simpl; by rewrite ?Ht1.
Qed.

(** X11: a failed [PHYSFS_setWriteDir] is not a no-op.  With no file open
    for writing, when the host cannot create the directory or the copy of
    its name cannot be allocated, the call returns 0 and sets
    [NoDirCreate] in the first case and [OutOfMemory] in the second, on
    the state in which the write directory that was set before is released
    and the host call is made; the write directory is then null, and the
    caller's next [PHYSFS_getLastError] returns that error when the caller
    has a slot or the slot's [malloc] succeeds, and nothing otherwise. *)
Theorem setWriteDir_failure_clears (t : Z) (newDir : string)
    (s : physfs_state) :
  openWriteCount s ≤ 0 →
  createDirs_dependent P (host_trace s) newDir = 0 ∨ (malloc s).1 = false →
  PHYSFS_setWriteDir P t (Some newDir) s
    = (0, __PHYSFS_setError t
            (if createDirs_dependent P (host_trace s) newDir =? 0
             then ERR_NO_DIR_CREATE else ERR_OUT_OF_MEMORY)
            (if createDirs_dependent P (host_trace s) newDir =? 0
             then setWriteDir_attempt newDir s
             else (malloc (setWriteDir_attempt newDir s)).2)) ∧
  PHYSFS_getWriteDir (PHYSFS_setWriteDir P t (Some newDir) s).2 = None ∧
  host_trace (PHYSFS_setWriteDir P t (Some newDir) s).2
    = HostCreateDirs newDir :: host_trace s ∧
  (PHYSFS_getLastError t (PHYSFS_setWriteDir P t (Some newDir) s).2).1
    = if slot_in_reach t
           (if createDirs_dependent P (host_trace s) newDir =? 0
            then setWriteDir_attempt newDir s
            else (malloc (setWriteDir_attempt newDir s)).2)
      then Some (if createDirs_dependent P (host_trace s) newDir =? 0
                 then ERR_NO_DIR_CREATE else ERR_OUT_OF_MEMORY)
      else None.
Proof.
  intros Hopen Hfail.
  set (rc := createDirs_dependent P (host_trace s) newDir).
  set (e := if rc =? 0 then ERR_NO_DIR_CREATE else ERR_OUT_OF_MEMORY).
  set (s0 := if rc =? 0 then setWriteDir_attempt newDir s
             else (malloc (setWriteDir_attempt newDir s)).2).
  assert (Hrun : PHYSFS_setWriteDir P t (Some newDir) s
                   = (0, __PHYSFS_setError t e s0)).
  { unfold PHYSFS_setWriteDir, BAIL.
    destruct (Z.ltb_spec 0 (openWriteCount s)); [lia|].
    rewrite free_writeDir. subst e s0 rc. simpl host_trace.
    fold (setWriteDir_attempt newDir s).
    destruct (Z.eqb_spec (createDirs_dependent P (host_trace s) newDir) 0)
      as [Hrc|Hrc]; [done|].
    destruct Hfail as [|Hok]; [done|].
    assert (Hok' : (malloc (setWriteDir_attempt newDir s)).1 = false).
    { unfold malloc in Hok |- *. simpl.
      by destruct (malloc_plan s) as [|[] plan]. }
    destruct (malloc (setWriteDir_attempt newDir s)) as [ok s3].
    simpl in Hok' |- *. by rewrite Hok'. }
  assert (Hs0 : writeDir s0 = None ∧
                host_trace s0 = HostCreateDirs newDir :: host_trace s).
  { subst s0. destruct (rc =? 0); [done|].
    unfold malloc. simpl. by destruct (malloc_plan s). }
  rewrite Hrun. simpl. split; [done|].
  unfold PHYSFS_getWriteDir.
  destruct (setError_same t e s0) as (_ & _ & _ & -> & _ & _ & _ & _ & _ & ->).
  destruct Hs0 as [-> ->]. do 2 (split; [done|]).
  destruct (slot_in_reach t s0) eqn:Hreach.
  - rewrite setError_then_getLastError by done.
    subst e. by destruct (rc =? 0).
  - by apply setError_lost.
Qed.

(** X12: with no file open for writing, [PHYSFS_setWriteDir(NULL)]
    returns 1, clears the write directory, asks nothing of the host and
    sets no error; from then on [PHYSFS_mkdir] and [PHYSFS_delete] fail
    with [NoWriteDir] for every path. *)
Theorem setWriteDir_null_then_mkdir (t : Z) (s : physfs_state) :
  openWriteCount s ≤ 0 →
  ∃ s1,
    PHYSFS_setWriteDir P t None s = (1, s1) ∧
    PHYSFS_getWriteDir s1 = None ∧
    host_trace s1 = host_trace s ∧
    errorMessages s1 = errorMessages s ∧
    ∀ t' p,
      PHYSFS_mkdir P t' p s1
        = Returns 0 (__PHYSFS_setError t' ERR_NO_WRITE_DIR s1) ∧
      PHYSFS_delete P t' p s1
        = Returns 0 (__PHYSFS_setError t' ERR_NO_WRITE_DIR s1).
Proof.
  intros Hopen. unfold PHYSFS_setWriteDir.
  destruct (Z.ltb_spec 0 (openWriteCount s)); [lia|].
  eexists. split; [reflexivity|].
  assert (Hw : writeDir (match writeDir s with
                         | Some _ => set_writeDir None s
                         | None => s
                         end) = None) by (by destruct (writeDir s) eqn:Hw).
  split; [done|]. split; [by destruct (writeDir s)|].
  split; [by destruct (writeDir s)|].
  intros t' p. unfold PHYSFS_mkdir, PHYSFS_delete, BAIL. by rewrite Hw.
Qed.

End LifeCycle.

Lemma init_twice_witness :
  initialized boot = 0 ∧
  ∃ s1,
    PHYSFS_init unix_host 1 (Some "/app/bin/app") boot = (1, s1) ∧
    initialized s1 = 1 ∧
    PHYSFS_getBaseDir s1 = calculateBaseDir unix_host ∧
    errorMessages s1 = errorMessages boot ∧
    ∀ t' argv0',
      PHYSFS_init unix_host t' argv0' s1
        = (0, __PHYSFS_setError t' ERR_IS_INITIALIZED s1) ∧
      PHYSFS_getBaseDir (__PHYSFS_setError t' ERR_IS_INITIALIZED s1)
        = calculateBaseDir unix_host.
Proof.
  split; [reflexivity|].
  apply (init_twice unix_host 1 "/app/bin/app" boot). reflexivity.
Defined.

Lemma deinit_then_init_witness :
  initialized ready ≠ 0 ∧ searchPath ready = None ∧
  openWriteCount ready ≤ 0 ∧
  ∃ s1,
    PHYSFS_deinit unix_host 0 1 ready = Returns 1 s1 ∧
    searchPath s1 = None ∧ writeDir s1 = None ∧ errorMessages s1 = [] ∧
    (∀ fuel' t',
       PHYSFS_deinit unix_host fuel' t' s1
         = Returns 0 (__PHYSFS_setError t' ERR_NOT_INITIALIZED s1)) ∧
    ∀ t' argv0, (PHYSFS_init unix_host t' (Some argv0) s1).1 = 1.
Proof.
  split; [discriminate|]. split; [reflexivity|]. split; [discriminate|].
  apply (deinit_then_init unix_host 0 1 ready);
    [discriminate|reflexivity|discriminate].
Defined.

Lemma deinit_keeps_write_dir_witness :
  initialized ready_w_writing ≠ 0 ∧ searchPath ready_w_writing = None ∧
  0 < openWriteCount ready_w_writing ∧
  ∃ s1,
    PHYSFS_deinit unix_host 0 1 ready_w_writing = Returns 1 s1 ∧
    initialized s1 = 0 ∧
    PHYSFS_getWriteDir s1 = PHYSFS_getWriteDir ready_w_writing ∧
    openWriteCount s1 = openWriteCount ready_w_writing ∧
    errorMessages s1 = [].
Proof.
  split; [discriminate|]. split; [reflexivity|]. split; [reflexivity|].
  apply (deinit_keeps_write_dir unix_host 0 1 ready_w_writing);
    [discriminate|reflexivity|reflexivity].
Defined.

Lemma setWriteDir_get_witness :
  openWriteCount ready ≤ 0 ∧
  createDirs_dependent unix_host (host_trace ready) "/w" ≠ 0 ∧
  (malloc ready).1 = true ∧
  ∃ s1,
    PHYSFS_setWriteDir unix_host 1 (Some "/w") ready = (1, s1) ∧
    PHYSFS_getWriteDir s1 = Some "/w" ∧
    host_trace s1 = HostCreateDirs "/w" :: host_trace ready ∧
    errorMessages s1 = errorMessages ready ∧
    searchPath s1 = searchPath ready.
Proof.
  split; [discriminate|]. split; [discriminate|]. split; [reflexivity|].
  apply (setWriteDir_get unix_host 1 "/w" ready);
    [discriminate|discriminate|reflexivity].
Defined.

Lemma setWriteDir_failure_clears_witness :
  openWriteCount ready_w ≤ 0 ∧
  (createDirs_dependent closed_host (host_trace ready_w) "/elsewhere" = 0 ∨
   (malloc ready_w).1 = false) ∧
  PHYSFS_getWriteDir ready_w = Some "/w" ∧
  PHYSFS_setWriteDir closed_host 1 (Some "/elsewhere") ready_w
    = (0, __PHYSFS_setError 1 ERR_NO_DIR_CREATE
            (setWriteDir_attempt "/elsewhere" ready_w)) ∧
  PHYSFS_getWriteDir
    (PHYSFS_setWriteDir closed_host 1 (Some "/elsewhere") ready_w).2 = None ∧
  host_trace (PHYSFS_setWriteDir closed_host 1 (Some "/elsewhere") ready_w).2
    = HostCreateDirs "/elsewhere" :: host_trace ready_w ∧
  (PHYSFS_getLastError 1
     (PHYSFS_setWriteDir closed_host 1 (Some "/elsewhere") ready_w).2).1
    = Some ERR_NO_DIR_CREATE.
Proof.
  split; [discriminate|]. split; [by left|]. split; [reflexivity|].
  exact (setWriteDir_failure_clears closed_host 1 "/elsewhere" ready_w
           ltac:(discriminate) (or_introl eq_refl)).
Defined.

Lemma setWriteDir_null_then_mkdir_witness :
  openWriteCount ready_w ≤ 0 ∧
  ∃ s1,
    PHYSFS_setWriteDir unix_host 1 None ready_w = (1, s1) ∧
    PHYSFS_getWriteDir s1 = None ∧
    host_trace s1 = host_trace ready_w ∧
    errorMessages s1 = errorMessages ready_w ∧
    ∀ t' p,
      PHYSFS_mkdir unix_host t' p s1
        = Returns 0 (__PHYSFS_setError t' ERR_NO_WRITE_DIR s1) ∧
      PHYSFS_delete unix_host t' p s1
        = Returns 0 (__PHYSFS_setError t' ERR_NO_WRITE_DIR s1).
Proof.
  split; [discriminate|].
  apply (setWriteDir_null_then_mkdir unix_host 1 ready_w). discriminate.
Defined.

(** ** The search path as a list *)

Section SearchPathList.

Local Open Scope list_scope.

Implicit Types (h : gmap addr SearchDirInfo) (p : option addr)
  (l : list (addr * SearchDirInfo)) (s : physfs_state).

Lemma malloc_unfold s :
  malloc s = (default true (head (malloc_plan s)),
              set_malloc_plan (tail (malloc_plan s)) s).
Proof. unfold malloc. destruct s as [? ? ? ? ? ? ? ? ? ? plan ?]. by destruct plan. Qed.

Lemma plan_allows_S (n : nat) (plan : list bool) :
  plan_allows (S n) plan
    = default true (head plan) && plan_allows n (tail plan).
Proof. unfold plan_allows. destruct plan as [|[] plan]; by destruct n. Qed.

Lemma drop_tail (n : nat) (plan : list bool) :
  drop n (tail plan) = drop (S n) plan.
Proof. destruct plan; simpl; [by destruct n|done]. Qed.

Lemma set_malloc_plan_same s : set_malloc_plan (malloc_plan s) s = s.
Proof. by destruct s. Qed.




Lemma sdi_list_frame h h' p l :
  sdi_list h p l → (∀ a, a ∈ l.*1 → h' !! a = h !! a) → sdi_list h' p l.
Proof.
  revert p. induction l as [|[a node] l IH]; intros p; simpl; [done|].
  intros (Hp & Ha & Hl) Hsame. split; [done|]. split.
  - rewrite Hsame; [done|]. apply elem_of_cons. by left.
  - apply IH; [done|]. intros b Hb. apply Hsame, elem_of_cons. by right.
Qed.

Lemma sdi_list_functional h p l1 l2 :
  sdi_list h p l1 → sdi_list h p l2 → l1 = l2.
Proof.
  revert p l2. induction l1 as [|[a node] l1 IH]; intros p [|[b node'] l2];
    simpl; try done.
  - by intros -> (? & _).
  - by intros (-> & _) ?.
  - intros (-> & Ha & Hl1) ([= <-] & Hb & Hl2).
    rewrite Ha in Hb. injection Hb as <-. f_equal. by eapply IH.
Qed.

Lemma sdi_list_suffix h p l1 l2 :
  sdi_list h p (l1 ++ l2) → ∃ q, sdi_list h q l2.
Proof.
  revert p. induction l1 as [|[a node] l1 IH]; intros p; simpl.
  - by exists p.
  - intros (_ & _ & Hl). by eapply IH.
Qed.

(** A list that ends in null meets no address twice. *)
Lemma sdi_list_NoDup h p l : sdi_list h p l → NoDup l.*1.
Proof.
  revert p. induction l as [|[a node] l IH]; intros p Hl; simpl;
    [apply NoDup_nil_2|].
  pose proof Hl as (Hp & Ha & Hrest). apply NoDup_cons. split; [|by eapply IH].
  intros Hin. apply list_elem_of_fmap in Hin as ([b node'] & Hb & Hin).
  simpl in Hb. subst b.
  apply list_elem_of_split in Hin as (l1 & l2 & ->).
  destruct (sdi_list_suffix h (next node) l1 _ Hrest) as (q & Hq).
  pose proof Hq as (-> & _).
  assert (Hlen : (a, node') :: l2 = (a, node) :: l1 ++ (a, node') :: l2).
  { eapply sdi_list_functional; [exact Hq|]. by subst p. }
  apply (f_equal length) in Hlen. simpl in Hlen. rewrite length_app in Hlen.
  simpl in Hlen. lia.
Qed.

Lemma getSearchPath_count_list (fuel : nat) p l (c : nat) s :
  sdi_list (sdi_heap s) p l → (length l < fuel)%nat →
  getSearchPath_count fuel p c s = Returns (c + length l)%nat s.
Proof.
  revert p c fuel. induction l as [|[a node] l IH]; intros p c fuel; simpl.
  - intros -> Hfuel. destruct fuel; [lia|]. simpl. by rewrite Nat.add_0_r.
  - intros (-> & Ha & Hl) Hfuel. destruct fuel; [lia|]. simpl. rewrite Ha.
    rewrite (IH _ (S c)) by (done || lia). f_equal. lia.
Qed.

Lemma getSearchPath_copy_ok (t : Z) l p s :
  sdi_list (sdi_heap s) p l →
  plan_allows (length l) (malloc_plan s) = true →
  getSearchPath_copy (length l) t p s
    = Returns (Some (mount_names l))
        (set_malloc_plan (drop (length l) (malloc_plan s)) s).
Proof.
  revert p s. induction l as [|[a node] l IH]; intros p s; simpl.
  - intros _ _. by destruct s.
  - intros (-> & Ha & Hl) Hplan. rewrite Ha, malloc_unfold.
    change (plan_allows (S (length l)) (malloc_plan s) = true) in Hplan.
    rewrite plan_allows_S in Hplan. apply andb_true_iff in Hplan as [-> Hplan].
    rewrite IH by done. simpl. by rewrite drop_tail.
Qed.

Lemma getSearchPath_copy_fails (t : Z) l p s :
  sdi_list (sdi_heap s) p l →
  plan_allows (length l) (malloc_plan s) = false →
  ∃ plan,
    getSearchPath_copy (length l) t p s
      = Returns None
          (__PHYSFS_setError t ERR_OUT_OF_MEMORY (set_malloc_plan plan s)).
Proof.
  revert p s. induction l as [|[a node] l IH]; intros p s; simpl; [done|].
  intros (-> & Ha & Hl) Hplan. rewrite Ha, malloc_unfold.
  change (plan_allows (S (length l)) (malloc_plan s) = false) in Hplan.
  rewrite plan_allows_S in Hplan.
  destruct (default true (head (malloc_plan s))); [|by eexists].
  simpl in Hplan.
  destruct (IH (next node) (set_malloc_plan (tail (malloc_plan s)) s))
    as (plan & ->); [done..|].
  by exists plan.
Qed.


End SearchPathList.

(** X13: [PHYSFS_getSearchPath] is a snapshot of the list.  When the
    search path is the list [l], the fuel covers it and the next
    [length l + 1] allocations succeed (the array and one copy per name),
    the call returns the directory names of [l] in list order, and its only
    effect is on the allocator. *)
Theorem getSearchPath_lists (fuel : nat) (t : Z) (s : physfs_state)
    (l : list (addr * SearchDirInfo)) :
  sdi_list (sdi_heap s) (searchPath s) l →
  (length l < fuel)%nat →
  plan_allows (S (length l)) (malloc_plan s) = true →
  PHYSFS_getSearchPath fuel t s
    = Returns (Some (mount_names l))
        (set_malloc_plan (drop (S (length l)) (malloc_plan s)) s).
Proof.
  intros Hl Hfuel Hplan. unfold PHYSFS_getSearchPath.
  rewrite (getSearchPath_count_list fuel _ l) by done. cbn [bind].
  rewrite malloc_unfold. rewrite plan_allows_S in Hplan.
  apply andb_true_iff in Hplan as [-> Hplan]. cbn [negb Nat.add Nat.pred].
  rewrite (getSearchPath_copy_ok t l) by done. simpl. by rewrite drop_tail.
Qed.

Lemma getSearchPath_lists_witness :
  sdi_list (sdi_heap two_mounts) (searchPath two_mounts) two_mounts_nodes ∧
  (length two_mounts_nodes < 3)%nat ∧
  plan_allows (S (length two_mounts_nodes)) (malloc_plan two_mounts) = true ∧
  PHYSFS_getSearchPath 3 1 two_mounts
    = Returns (Some ["/a"; "/b"])
        (set_malloc_plan
           (drop (S (length two_mounts_nodes)) (malloc_plan two_mounts))
           two_mounts).
Proof.
  assert (Hl : sdi_list (sdi_heap two_mounts) (searchPath two_mounts)
                 two_mounts_nodes) by (by repeat split).
  split; [exact Hl|]. split; [simpl; lia|]. split; [reflexivity|].
  apply (getSearchPath_lists 3 1 two_mounts two_mounts_nodes Hl);
    [simpl; lia|reflexivity].
Defined.



(** X15: when the search path is the list [l] and one of the
    [length l + 1] allocations of [PHYSFS_getSearchPath] fails, the call
    returns null and sets [OutOfMemory]; nothing else changes but the
    allocator. *)
Theorem getSearchPath_out_of_memory (fuel : nat) (t : Z) (s : physfs_state)
    (l : list (addr * SearchDirInfo)) :
  sdi_list (sdi_heap s) (searchPath s) l →
  (length l < fuel)%nat →
  plan_allows (S (length l)) (malloc_plan s) = false →
  ∃ plan,
    PHYSFS_getSearchPath fuel t s
      = Returns None
          (__PHYSFS_setError t ERR_OUT_OF_MEMORY (set_malloc_plan plan s)).
Proof.
  intros Hl Hfuel Hplan. unfold PHYSFS_getSearchPath, BAIL.
  rewrite (getSearchPath_count_list fuel _ l) by done. cbn [bind].
  rewrite malloc_unfold. rewrite plan_allows_S in Hplan.
  destruct (default true _); cbn [negb Nat.add Nat.pred]; [|by eexists].
  simpl in Hplan.
  destruct (getSearchPath_copy_fails t l
              (searchPath (set_malloc_plan (tail (malloc_plan s)) s))
              (set_malloc_plan (tail (malloc_plan s)) s)) as (plan & ->);
    [done..|].
  by exists plan.
Qed.

Lemma getSearchPath_out_of_memory_witness :
  sdi_list (sdi_heap (set_malloc_plan [true; true; false] two_mounts))
    (searchPath (set_malloc_plan [true; true; false] two_mounts))
    two_mounts_nodes ∧
  (length two_mounts_nodes < 3)%nat ∧
  plan_allows (S (length two_mounts_nodes))
    (malloc_plan (set_malloc_plan [true; true; false] two_mounts)) = false ∧
  ∃ plan,
    PHYSFS_getSearchPath 3 1 (set_malloc_plan [true; true; false] two_mounts)
      = Returns None
          (__PHYSFS_setError 1 ERR_OUT_OF_MEMORY
             (set_malloc_plan plan
                (set_malloc_plan [true; true; false] two_mounts))).
Proof.
  assert (Hl : sdi_list
                 (sdi_heap (set_malloc_plan [true; true; false] two_mounts))
                 (searchPath (set_malloc_plan [true; true; false] two_mounts))
                 two_mounts_nodes) by (by repeat split).
  split; [exact Hl|]. split; [simpl; lia|]. split; [reflexivity|].
  apply (getSearchPath_out_of_memory 3 1 _ two_mounts_nodes Hl);
    [simpl; lia|reflexivity].
Defined.

Lemma removeFromSearchPath_scan_absent (fuel : nat) (t : Z) (m : string)
    (p prev : option addr) (s : physfs_state)
    (l : list (addr * SearchDirInfo)) :
  sdi_list (sdi_heap s) p l → m ∉ mount_names l → (length l < fuel)%nat →
  removeFromSearchPath_scan fuel t m p prev s
    = Returns 0 (__PHYSFS_setError t ERR_NOT_IN_SEARCH_PATH s).
Proof.
  revert p prev fuel. induction l as [|[a node] l IH]; intros p prev fuel;
    simpl.
  - intros -> _ Hfuel. destruct fuel; [lia|]. done.
  - intros (-> & Ha & Hl) Hm Hfuel. destruct fuel; [lia|]. simpl. rewrite Ha.
    apply not_elem_of_cons in Hm as [Hne Hm].
    destruct (String.eqb_spec (dirName node) m) as [|_]; [done|].
    apply IH; [done..|lia].
Qed.

(** X18: removing a directory that is not on the search path fails and
    changes nothing: when the search path is the list [l], no node of [l]
    has the name [m] and the fuel covers [l],
    [PHYSFS_removeFromSearchPath] returns 0 and its only effect is to set
    [NotInSearchPath]. *)
Theorem removeFromSearchPath_absent (fuel : nat) (t : Z) (m : string)
    (s : physfs_state) (l : list (addr * SearchDirInfo)) :
  sdi_list (sdi_heap s) (searchPath s) l →
  m ∉ mount_names l →
  (length l < fuel)%nat →
  PHYSFS_removeFromSearchPath fuel t (Some m) s
    = Returns 0 (__PHYSFS_setError t ERR_NOT_IN_SEARCH_PATH s).
Proof.
  intros Hl Hm Hfuel. unfold PHYSFS_removeFromSearchPath.
  by eapply removeFromSearchPath_scan_absent.
Qed.

Lemma removeFromSearchPath_absent_witness :
  sdi_list (sdi_heap two_mounts) (searchPath two_mounts) two_mounts_nodes ∧
  ("/c" ∉ mount_names two_mounts_nodes) ∧
  (length two_mounts_nodes < 3)%nat ∧
  PHYSFS_removeFromSearchPath 3 1 (Some "/c") two_mounts
    = Returns 0 (__PHYSFS_setError 1 ERR_NOT_IN_SEARCH_PATH two_mounts).
Proof.
  assert (Hl : sdi_list (sdi_heap two_mounts) (searchPath two_mounts)
                 two_mounts_nodes) by (by repeat split).
  assert (Hm : "/c" ∉ mount_names two_mounts_nodes).
  { apply not_elem_of_cons. split; [discriminate|].
    apply not_elem_of_cons. split; [discriminate|]. apply not_elem_of_nil. }
  split; [exact Hl|]. split; [exact Hm|]. split; [simpl; lia|].
  apply (removeFromSearchPath_absent 3 1 "/c" two_mounts two_mounts_nodes Hl Hm).
  simpl; lia.
Defined.

Section SearchPathInvariant.

Local Open Scope list_scope.

Context (P : Platform).

Implicit Types (l : list (addr * SearchDirInfo)) (s : physfs_state).

(** X16: a successful [PHYSFS_addToSearchPath] puts the new directory
    first, whatever [appendToPath] is: when the search path was the
    well-formed list [l], it is afterwards a well-formed list whose names
    are [m] followed by the names of [l]; the new node is fresh and has a
    fresh reader. *)
Theorem addToSearchPath_first (fuel : nat) (t : Z) (m : string)
    (appendToPath rc : Z) (s s1 : physfs_state) l :
  PHYSFS_addToSearchPath P fuel t (Some m) appendToPath s = Returns rc s1 →
  rc ≠ 0 →
  search_path_wf s l →
  ∃ l1,
    search_path_wf s1 l1 ∧
    mount_names l1 = m :: mount_names l ∧
    tail l1 = l.
Proof.
  intros Hadd Hrc (Hl & Hnodup & Hopen).
  destruct (addToSearchPath_success P _ _ _ _ _ _ _ Hadd Hrc)
    as (Hsp & Hheap & Hrs).
  set (sdi := fresh (dom (sdi_heap s))) in *.
  set (r := fresh (openReaders s)) in *.
  exists ((sdi, mkSearchDirInfo m r (searchPath s)) :: l).
  split; [|done]. split; [|split].
  - simpl. rewrite Hsp, Hheap, lookup_insert_eq. do 2 (split; [done|]).
    eapply sdi_list_frame; [exact Hl|]. intros a Ha.
    apply lookup_insert_ne. intros <-.
    apply list_elem_of_fmap in Ha as ([b node] & Hb & Hin). simpl in Hb.
    subst b. apply list_elem_of_split in Hin as (l1 & l2 & ->).
    destruct (sdi_list_suffix _ _ l1 _ Hl) as (q & _ & Hnode & _).
    pose proof (sdi_fresh s) as Hfresh. fold sdi in Hfresh. congruence.
  - simpl. apply NoDup_cons. split; [|done]. intros Hin.
    rewrite Forall_forall in Hopen. apply Hopen in Hin.
    by apply is_fresh in Hin.
  - simpl. rewrite Hrs. apply Forall_cons.
    split; [by apply elem_of_union_l, elem_of_singleton|].
    eapply Forall_impl; [exact Hopen|].
    intros x Hx. by apply elem_of_union_r.
Qed.

End SearchPathInvariant.

Section Unlink.

Local Open Scope list_scope.

Implicit Types (h : gmap addr SearchDirInfo) (l : list (addr * SearchDirInfo))
  (s : physfs_state).

Lemma freeSearchDir_live (a : addr) (node : SearchDirInfo) s :
  sdi_heap s !! a = Some node → reader node ∈ openReaders s →
  freeSearchDir (Some a) s
    = Returns tt
        (set_sdi_heap (delete a (sdi_heap s))
           (set_openReaders (openReaders s ∖ {[reader node]}) s)).
Proof.
  intros Ha Hr. unfold freeSearchDir, reader_close. rewrite Ha.
  by rewrite decide_True.
Qed.

Lemma removeFromSearchPath_scan_pass (fuel : nat) (t : Z) (m : string)
    (a : addr) (node : SearchDirInfo) (prev : option addr) s :
  sdi_heap s !! a = Some node → m ≠ dirName node →
  removeFromSearchPath_scan (S fuel) t m (Some a) prev s
    = removeFromSearchPath_scan fuel t m (next node) (Some a) s.
Proof.
  intros Ha Hne. simpl. rewrite Ha.
  by destruct (String.eqb_spec (dirName node) m).
Qed.

(** The scan passes the nodes with other names, keeping the last one in
    [prev]. *)
Lemma removeFromSearchPath_scan_skip (fuel : nat) (t : Z) (m : string)
    (i prev : option addr) s l1 (p : addr) (pn : SearchDirInfo) l2 :
  sdi_list (sdi_heap s) i (l1 ++ (p, pn) :: l2) →
  m ∉ mount_names (l1 ++ [(p, pn)]) →
  removeFromSearchPath_scan (S (length l1) + fuel) t m i prev s
    = removeFromSearchPath_scan fuel t m (next pn) (Some p) s.
Proof.
  revert i prev. induction l1 as [|[x xn] l1 IH]; intros i prev.
  - intros (-> & Hp & _) Hm. apply not_elem_of_cons in Hm as [Hne _].
    by apply removeFromSearchPath_scan_pass.
  - intros (-> & Hx & Hl) Hm. apply not_elem_of_cons in Hm as [Hne Hm].
    change (S (length ((x, xn) :: l1)) + fuel)%nat
      with (S (S (length l1) + fuel)).
    rewrite (removeFromSearchPath_scan_pass _ _ _ _ xn) by done.
    by apply IH.
Qed.

Lemma sdi_list_unlink_head h (a : addr) (node : SearchDirInfo) l2 :
  sdi_list h (Some a) ((a, node) :: l2) →
  sdi_list (delete a h) (next node) l2.
Proof.
  intros Hl. pose proof (sdi_list_NoDup _ _ _ Hl) as Hnodup.
  destruct Hl as (_ & _ & Hl2). simpl in Hnodup.
  apply NoDup_cons in Hnodup as [Ha _].
  eapply sdi_list_frame; [exact Hl2|].
  intros b Hb. apply lookup_delete_ne. by intros <-.
Qed.

Lemma sdi_list_unlink_inner h (sp : option addr) l1 (p a : addr)
    (pn node : SearchDirInfo) l2 :
  p ∉ l1.*1 → a ∉ l1.*1 → p ≠ a → p ∉ l2.*1 → a ∉ l2.*1 →
  sdi_list h sp (l1 ++ (p, pn) :: (a, node) :: l2) →
  sdi_list
    (delete a
       (<[p := mkSearchDirInfo (dirName pn) (reader pn) (next node)]> h))
    sp (l1 ++ (p, mkSearchDirInfo (dirName pn) (reader pn) (next node)) :: l2).
Proof.
  intros Hp1 Ha1 Hpa Hp2 Ha2. revert sp Hp1 Ha1.
  induction l1 as [|[x xn] l1 IH]; intros sp Hp1 Ha1; simpl.
  - intros (-> & _ & _ & _ & Hl2). split; [done|].
    split; [by rewrite lookup_delete_ne, lookup_insert_eq|].
    eapply sdi_list_frame; [exact Hl2|]. intros b Hb.
    rewrite lookup_delete_ne by (by intros <-).
    apply lookup_insert_ne. by intros <-.
  - simpl in Hp1, Ha1. apply not_elem_of_cons in Hp1 as [Hpx Hp1].
    apply not_elem_of_cons in Ha1 as [Hax Ha1].
    intros (-> & Hx & Hl). split; [done|]. split.
    + by rewrite lookup_delete_ne, lookup_insert_ne.
    + by apply IH.
Qed.

Lemma sdi_list_unlink h (sp : option addr) l1 (p a : addr)
    (pn node : SearchDirInfo) l2 :
  sdi_list h sp (l1 ++ (p, pn) :: (a, node) :: l2) →
  sdi_list
    (delete a
       (<[p := mkSearchDirInfo (dirName pn) (reader pn) (next node)]> h))
    sp (l1 ++ (p, mkSearchDirInfo (dirName pn) (reader pn) (next node)) :: l2).
Proof.
  intros Hl. pose proof (sdi_list_NoDup _ _ _ Hl) as Hnodup.
  rewrite fmap_app in Hnodup. simpl in Hnodup.
  apply NoDup_app in Hnodup as (_ & Hdisj & Hrest).
  apply NoDup_cons in Hrest as [Hp Hrest].
  apply NoDup_cons in Hrest as [Ha _].
  apply not_elem_of_cons in Hp as [Hpa Hp].
  apply sdi_list_unlink_inner; try done.
  - intros Hin. apply Hdisj in Hin. apply Hin, elem_of_cons. by left.
  - intros Hin. apply Hdisj in Hin. apply Hin, elem_of_cons. right.
    apply elem_of_cons. by left.
Qed.

Lemma sdi_list_lookup_last h (sp : option addr) l1 (p : addr)
    (pn : SearchDirInfo) l2 :
  sdi_list h sp (l1 ++ (p, pn) :: l2) →
  h !! p = Some pn ∧ sdi_list h (next pn) l2.
Proof.
  intros Hl. destruct (sdi_list_suffix _ _ _ _ Hl) as (q & _ & Hp & Hl2).
  done.
Qed.

Lemma readers_without (rs1 rs2 : list DirReader) (r : DirReader)
    (X : gset DirReader) :
  NoDup (rs1 ++ r :: rs2) → Forall (λ x, x ∈ X) (rs1 ++ r :: rs2) →
  NoDup (rs1 ++ rs2) ∧ Forall (λ x, x ∈ X ∖ {[r]}) (rs1 ++ rs2).
Proof.
  intros Hnodup Hopen.
  apply NoDup_app in Hnodup as (Hn1 & Hdisj & Hn2).
  apply NoDup_cons in Hn2 as [Hr Hn2].
  apply Forall_app in Hopen as [Ho1 Ho2].
  apply Forall_cons in Ho2 as [_ Ho2].
  split.
  - apply NoDup_app. split; [done|]. split; [|done].
    intros x Hx Hx2. apply (Hdisj x Hx), elem_of_cons. by right.
  - apply Forall_app. split.
    + rewrite Forall_forall in Ho1 |- *. intros x Hx.
      apply elem_of_difference. split; [by apply Ho1|].
      rewrite elem_of_singleton. intros ->.
      apply (Hdisj r Hx), elem_of_cons. by left.
    + rewrite Forall_forall in Ho2 |- *. intros x Hx.
      apply elem_of_difference. split; [by apply Ho2|].
      rewrite elem_of_singleton. by intros ->.
Qed.

End Unlink.

Section RemoveFirst.

Local Open Scope list_scope.

Lemma removeFromSearchPath_scan_hit (fuel : nat) (t : Z) (a : addr)
    (node : SearchDirInfo) (s : physfs_state) :
  sdi_heap s !! a = Some node →
  removeFromSearchPath_scan (S fuel) t (dirName node) (Some a) None s
    = bind (freeSearchDir (Some a) (set_searchPath (next node) s))
        (λ _ s1, Returns 1 s1).
Proof. intros Ha. simpl. by rewrite Ha, String.eqb_refl. Qed.

Lemma removeFromSearchPath_scan_hit_after (fuel : nat) (t : Z) (a p : addr)
    (node pn : SearchDirInfo) (s : physfs_state) :
  sdi_heap s !! a = Some node → sdi_heap s !! p = Some pn →
  removeFromSearchPath_scan (S fuel) t (dirName node) (Some a) (Some p) s
    = bind
        (freeSearchDir (Some a)
           (set_sdi_heap
              (<[p := mkSearchDirInfo (dirName pn) (reader pn) (next node)]>
                 (sdi_heap s)) s))
        (λ _ s1, Returns 1 s1).
Proof. intros Ha Hp. simpl. by rewrite Ha, String.eqb_refl, Hp. Qed.

(** X17: [PHYSFS_removeFromSearchPath] removes the first directory of
    that name and nothing else.  When the search path is a well-formed list
    whose first node named [m] is [(a, node)], after the nodes [l1] and
    before the nodes [l2], and the fuel covers [l1], the call returns 1; the
    search path is then a well-formed list with the names of [l1] followed
    by those of [l2], the node's reader is closed and no other, its block
    is freed, and no error is set. *)
Theorem removeFromSearchPath_first_match (fuel : nat) (t : Z) (m : string)
    (s : physfs_state) (l1 l2 : list (addr * SearchDirInfo)) (a : addr)
    (node : SearchDirInfo) :
  search_path_wf s (l1 ++ (a, node) :: l2) →
  m ∉ mount_names l1 →
  dirName node = m →
  (length l1 < fuel)%nat →
  ∃ s' l',
    PHYSFS_removeFromSearchPath fuel t (Some m) s = Returns 1 s' ∧
    search_path_wf s' l' ∧
    mount_names l' = mount_names l1 ++ mount_names l2 ∧
    openReaders s' = openReaders s ∖ {[reader node]} ∧
    sdi_heap s' !! a = None ∧
    errorMessages s' = errorMessages s.
Proof.
  intros (Hl & Hnodup & Hopen) Hm Hname Hfuel.
  unfold mount_readers in Hnodup, Hopen. rewrite fmap_app in Hnodup, Hopen.
  simpl in Hnodup, Hopen.
  destruct (readers_without _ _ _ _ Hnodup Hopen) as [Hnodup' Hopen'].
  assert (Hr : reader node ∈ openReaders s).
  { apply Forall_app in Hopen as [_ Ho]. by apply Forall_cons in Ho as [? _]. }
  unfold PHYSFS_removeFromSearchPath.
  destruct l1 as [|[p pn] l1 _] using rev_ind.
  - simpl in Hl. pose proof Hl as (Hsp & Ha & Hl2).
    destruct fuel as [|fuel]; [simpl in Hfuel; lia|].
    rewrite Hsp. subst m. rewrite removeFromSearchPath_scan_hit by done.
    rewrite (freeSearchDir_live a node) by done. cbn [bind].
    eexists _, l2. split; [reflexivity|]. simpl.
    split; [|split; [done|split; [done|split; [by rewrite lookup_delete_eq|done]]]].
    split; [|done].
    rewrite Hsp in Hl. by apply sdi_list_unlink_head in Hl.
  - rewrite <- List.app_assoc in Hl. simpl in Hl.
    rewrite length_app in Hfuel. simpl in Hfuel.
    replace fuel with (S (length l1) + S (fuel - length l1 - 2))%nat by lia.
    rewrite (removeFromSearchPath_scan_skip _ _ _ _ _ _ l1 p pn
               ((a, node) :: l2)) by done.
    pose proof (sdi_list_NoDup _ _ _ Hl) as Haddr.
    rewrite fmap_app in Haddr. simpl in Haddr.
    apply NoDup_app in Haddr as (_ & _ & Haddr).
    apply NoDup_cons in Haddr as [Hpa _].
    apply not_elem_of_cons in Hpa as [Hpa _].
    destruct (sdi_list_lookup_last _ _ _ _ _ _ Hl) as (Hp & Hnext & Ha & Hl2).
    rewrite Hnext. subst m.
    rewrite (removeFromSearchPath_scan_hit_after _ _ _ _ _ pn) by done.
    rewrite (freeSearchDir_live a node);
      [|by simpl; rewrite lookup_insert_ne|done].
    cbn [bind].
    eexists _, (l1 ++ (p, mkSearchDirInfo (dirName pn) (reader pn) (next node))
                  :: l2).
    split; [reflexivity|]. simpl.
    split; [|split; [|split; [done|split; [by rewrite lookup_delete_eq|done]]]].
    + split; [by apply sdi_list_unlink|].
      unfold mount_readers. rewrite !fmap_app in Hnodup', Hopen' |- *.
      simpl in Hnodup', Hopen' |- *.
      rewrite <- !List.app_assoc in Hnodup', Hopen'. done.
    + unfold mount_names. rewrite !fmap_app. simpl.
      by rewrite <- List.app_assoc.
Qed.

End RemoveFirst.

Lemma addToSearchPath_first_witness :
  PHYSFS_addToSearchPath unix_host 1 1 (Some "/a") 1
    (run (PHYSFS_addToSearchPath unix_host 1 1 (Some "/b") 1 ready))
    = Returns 1 two_mounts ∧
  (1 : Z) ≠ 0 ∧
  search_path_wf (run (PHYSFS_addToSearchPath unix_host 1 1 (Some "/b") 1 ready))
    [(0%nat, mkSearchDirInfo "/b" 0 None)] ∧
  ∃ l1,
    search_path_wf two_mounts l1 ∧
    mount_names l1 = "/a" :: mount_names [(0%nat, mkSearchDirInfo "/b" 0 None)] ∧
    tail l1 = [(0%nat, mkSearchDirInfo "/b" 0 None)].
Proof.
  assert (Hwf : search_path_wf
                  (run (PHYSFS_addToSearchPath unix_host 1 1 (Some "/b") 1 ready))
                  [(0%nat, mkSearchDirInfo "/b" 0 None)]).
  { split; [by repeat split|]. split; [apply NoDup_singleton|].
    apply Forall_singleton. by vm_compute. }
  split; [reflexivity|]. split; [discriminate|]. split; [exact Hwf|].
  apply (addToSearchPath_first unix_host 1 1 "/a" 1 1
           (run (PHYSFS_addToSearchPath unix_host 1 1 (Some "/b") 1 ready))
           two_mounts [(0%nat, mkSearchDirInfo "/b" 0 None)]);
    [reflexivity|discriminate|exact Hwf].
Defined.

Lemma removeFromSearchPath_first_match_witness :
  search_path_wf two_mounts
    ([(1%nat, mkSearchDirInfo "/a" 1 (Some 0%nat))]
       ++ (0%nat, mkSearchDirInfo "/b" 0 None) :: []) ∧
  ("/b" ∉ mount_names [(1%nat, mkSearchDirInfo "/a" 1 (Some 0%nat))]) ∧
  dirName (mkSearchDirInfo "/b" 0 None) = "/b" ∧
  (length [(1%nat, mkSearchDirInfo "/a" 1 (Some 0%nat))] < 2)%nat ∧
  ∃ s' l',
    PHYSFS_removeFromSearchPath 2 1 (Some "/b") two_mounts = Returns 1 s' ∧
    search_path_wf s' l' ∧
    mount_names l'
      = (mount_names [(1%nat, mkSearchDirInfo "/a" 1 (Some 0%nat))]
           ++ mount_names [])%list ∧
    openReaders s'
      = openReaders two_mounts ∖ {[reader (mkSearchDirInfo "/b" 0 None)]} ∧
    sdi_heap s' !! 0%nat = None ∧
    errorMessages s' = errorMessages two_mounts.
Proof.
  assert (Hwf : search_path_wf two_mounts
                  ([(1%nat, mkSearchDirInfo "/a" 1 (Some 0%nat))]
                     ++ (0%nat, mkSearchDirInfo "/b" 0 None) :: [])).
  { split; [by repeat split|]. split.
    - apply NoDup_cons. split; [|apply NoDup_singleton].
      apply not_elem_of_cons. split; [discriminate|apply not_elem_of_nil].
    - apply Forall_cons. split; [by vm_compute|].
      apply Forall_singleton. by vm_compute. }
  assert (Hm : "/b" ∉ mount_names [(1%nat, mkSearchDirInfo "/a" 1 (Some 0%nat))]).
  { apply not_elem_of_cons. split; [discriminate|apply not_elem_of_nil]. }
  split; [exact Hwf|]. split; [exact Hm|]. split; [reflexivity|].
  split; [simpl; lia|].
  apply (removeFromSearchPath_first_match 2 1 "/b" two_mounts _ _ _ _ Hwf Hm);
    [reflexivity|simpl; lia].
Defined.

Section AddAtomic.

Context (P : Platform).

Lemma addToSearchPath_failure_readers (fuel : nat) (t : Z)
    (newDir : option string) (appendToPath : Z) (s s' : physfs_state) :
  PHYSFS_addToSearchPath P fuel t newDir appendToPath s = Returns 0 s' →
  openReaders s ⊆ openReaders s'.
Proof.
  unfold PHYSFS_addToSearchPath, getDirReader, BAIL, freeReader, reader_close.
  assert (Herr : ∀ e x, openReaders (__PHYSFS_setError t e x) = openReaders x).
  { intros e x. apply setError_same. }
  destruct newDir as [m|]; [|intros [= <-]; by rewrite Herr].
  destruct (probe P m); [|intros [= <-]; by rewrite Herr..].
  set (s0 := set_openReaders _ s).
  destruct (malloc_plan_only s0) as (plan1 & Hs2).
  destruct (malloc s0) as [ok1 s2]. simpl in Hs2. subst s2.
  destruct ok1; simpl;
    [|intros [= <-]; rewrite Herr; simpl; apply union_subseteq_r].
  set (s2 := set_malloc_plan plan1 s0).
  destruct (malloc_plan_only s2) as (plan2 & Hs3).
  destruct (malloc s2) as [ok2 s3]. simpl in Hs3. subst s3.
  destruct ok2; simpl.
  - destruct (appendToPath =? 0); simpl; [|done].
    destruct (addToSearchPath_walk fuel (searchPath s) None) as [[prev|]|];
      [|done..].
    destruct (_ !! prev); done.
  - case_decide; [|done]. simpl. intros [= <-]. rewrite Herr. simpl.
    intros x Hx. apply elem_of_difference.
    split; [by apply elem_of_union_r|].
    rewrite elem_of_singleton. intros ->. by apply is_fresh in Hx.
Qed.

(** X19: a failing [PHYSFS_addToSearchPath] leaves the search path as it
    was: when the call returns 0, a well-formed search path is still the
    same well-formed list, and [PHYSFS_getSearchPath] gives what it gave
    before, whatever the allocator does. *)
Theorem addToSearchPath_failure_atomic (fuel : nat) (t : Z)
    (newDir : option string) (appendToPath : Z) (s s' : physfs_state)
    (l : list (addr * SearchDirInfo)) :
  PHYSFS_addToSearchPath P fuel t newDir appendToPath s = Returns 0 s' →
  search_path_wf s l →
  search_path_wf s' l ∧
  ∀ fuel' t' plan,
    verdict_of (PHYSFS_getSearchPath fuel' t' (set_malloc_plan plan s'))
      = verdict_of (PHYSFS_getSearchPath fuel' t' (set_malloc_plan plan s)).
Proof.
  intros Hadd (Hl & Hnodup & Hopen).
  destruct (addToSearchPath_failure_keeps_path P _ _ _ _ _ _ Hadd)
    as [Hsp Hheap].
  pose proof (addToSearchPath_failure_readers _ _ _ _ _ _ Hadd) as Hsub.
  split.
  - split; [by rewrite Hsp, Hheap|]. split; [done|].
    eapply Forall_impl; [exact Hopen|]. intros x Hx. by apply Hsub.
  - intros fuel' t' plan. apply getSearchPath_ext. by repeat split.
Qed.

End AddAtomic.

Lemma addToSearchPath_failure_atomic_witness :
  PHYSFS_addToSearchPath closed_host 1 1 (Some "/c") 1 two_mounts
    = Returns 0
        (run (PHYSFS_addToSearchPath closed_host 1 1 (Some "/c") 1 two_mounts)) ∧
  search_path_wf two_mounts two_mounts_nodes ∧
  search_path_wf
    (run (PHYSFS_addToSearchPath closed_host 1 1 (Some "/c") 1 two_mounts))
    two_mounts_nodes ∧
  ∀ fuel' t' plan,
    verdict_of
      (PHYSFS_getSearchPath fuel' t'
         (set_malloc_plan plan
            (run (PHYSFS_addToSearchPath closed_host 1 1 (Some "/c") 1
                    two_mounts))))
      = verdict_of (PHYSFS_getSearchPath fuel' t' (set_malloc_plan plan two_mounts)).
Proof.
  assert (Hwf : search_path_wf two_mounts two_mounts_nodes).
  { split; [by repeat split|]. split.
    - apply NoDup_cons. split; [|apply NoDup_singleton].
      apply not_elem_of_cons. split; [discriminate|apply not_elem_of_nil].
    - apply Forall_cons. split; [by vm_compute|].
      apply Forall_singleton. by vm_compute. }
  split; [reflexivity|]. split; [exact Hwf|].
  apply (addToSearchPath_failure_atomic closed_host 1 1 (Some "/c") 1
           two_mounts
           (run (PHYSFS_addToSearchPath closed_host 1 1 (Some "/c") 1
                   two_mounts))
           two_mounts_nodes); [reflexivity|exact Hwf].
Defined.

(** ** Path translation across a separator *)

Section Separators.

Local Open Scope list_scope.

Implicit Types (b pre rest : list (option ascii)) (str src w p q : string).

Lemma poke_inside b (i : nat) (c : ascii) :
  (i < length b)%nat → poke b i c = Some (<[i := Some c]> b).
Proof. intros Hi. unfold poke. by rewrite decide_True. Qed.

Lemma poke_outside b (i : nat) (c : ascii) :
  (length b ≤ i)%nat → poke b i c = None.
Proof. intros Hi. unfold poke. rewrite decide_False; [done|lia]. Qed.

Lemma poke_keeps b b' (i : nat) (c : ascii) :
  poke b i c = Some b' →
  length b' = length b ∧ ∀ n, (n ≤ i)%nat → take n b' = take n b.
Proof.
  unfold poke. case_decide; [|done]. intros [= <-].
  split; [apply length_insert|]. intros n Hn. by apply take_insert_ge.
Qed.

Lemma c_strcpy_keeps src b b' (i : nat) :
  c_strcpy b i src = Some b' →
  length b' = length b ∧ ∀ n, (n ≤ i)%nat → take n b' = take n b.
Proof.
  revert b i. induction src as [|c src IH]; intros b i; simpl.
  - apply poke_keeps.
  - destruct (poke b i c) as [b1|] eqn:Hpoke; [|done]. simpl. intros Hrec.
    apply poke_keeps in Hpoke as [Hlen1 Htake1].
    apply IH in Hrec as [Hlen Htake]. split; [congruence|].
    intros n Hn. rewrite Htake by lia. by apply Htake1.
Qed.

Lemma c_strcpy_inside src b (i : nat) :
  (i + String.length src < length b)%nat → is_Some (c_strcpy b i src).
Proof.
  revert b i. induction src as [|c src IH]; intros b i; simpl; intros Hi.
  - rewrite poke_inside by lia. by eexists.
  - rewrite poke_inside by lia. simpl. apply IH.
    rewrite length_insert. lia.
Qed.

(** Where the copying loop ends. *)
Lemma convert_loop_end dirsep q (i2 i2' : nat) b b' :
  convert_loop dirsep q i2 b = Some (i2', b') →
  i2' = (i2 + String.length q
         + count_char "/" q * String.length dirsep)%nat ∧
  length b' = length b ∧
  ∀ n, (n ≤ i2)%nat → take n b' = take n b.
Proof.
  revert i2 b. induction q as [|c q IH]; intros i2 b; simpl.
  - intros [= <- <-]. split; [lia|done].
  - case_decide as Hc.
    + rewrite bool_decide_eq_true_2 by done.
      destruct (c_strcpy b i2 dirsep) as [b1|] eqn:Hcpy; [|done]. simpl.
      intros Hrec. apply c_strcpy_keeps in Hcpy as [Hlen1 Htake1].
      apply IH in Hrec as (-> & Hlen & Htake). unfold strlen.
      split; [lia|]. split; [congruence|].
      intros n Hn. rewrite Htake by lia. by apply Htake1.
    + rewrite bool_decide_eq_false_2 by done.
      destruct (poke b i2 c) as [b1|] eqn:Hpoke; [|done]. simpl.
      intros Hrec. apply poke_keeps in Hpoke as [Hlen1 Htake1].
      apply IH in Hrec as (-> & Hlen & Htake).
      split; [lia|]. split; [congruence|].
      intros n Hn. rewrite Htake by lia. by apply Htake1.
Qed.

(** The loop stays inside a block that is large enough. *)
Lemma convert_loop_inside dirsep q (i2 : nat) b :
  (i2 + String.length q + count_char "/" q * String.length dirsep
   < length b)%nat →
  is_Some (convert_loop dirsep q i2 b).
Proof.
  revert i2 b. induction q as [|c q IH]; intros i2 b; simpl; [by eexists|].
  case_decide as Hc.
  - rewrite bool_decide_eq_true_2 by done. intros Hi.
    destruct (c_strcpy_inside dirsep b i2) as [b1 Hcpy]; [lia|].
    rewrite Hcpy. simpl. apply IH.
    apply c_strcpy_keeps in Hcpy as [-> _]. unfold strlen. lia.
  - rewrite bool_decide_eq_false_2 by done. intros Hi.
    rewrite poke_inside by lia. simpl. apply IH.
    rewrite length_insert. lia.
Qed.

Lemma convert_allocSize_count (sepsize : nat) p (n : nat) :
  convert_allocSize sepsize p n
    = (n + count_char "/" p * (sepsize - 1))%nat.
Proof.
  revert n. induction p as [|c p IH]; intros n; simpl; [lia|].
  case_decide.
  - rewrite bool_decide_eq_true_2 by done. rewrite IH. lia.
  - rewrite bool_decide_eq_false_2 by done. apply IH.
Qed.

(** A path with a slash is its first component, the slash and a rest. *)
Lemma upto_char_split p :
  no_char "/" p = false →
  ∃ q, p = upto_char "/" p +:+ String "/" q ∧
       no_char "/" (upto_char "/" p) = true ∧
       count_char "/" p = S (count_char "/" q) ∧
       String.length p
         = (String.length (upto_char "/" p) + S (String.length q))%nat.
Proof.
  induction p as [|c p IH]; simpl; [done|].
  destruct (bool_decide (c = "/"%char)) eqn:Hc; simpl.
  - intros _. apply bool_decide_eq_true_1 in Hc as ->. by exists p.
  - intros Hp. destruct (IH Hp) as (q & Hq & Hplain & Hcount & Hlen).
    exists q. rewrite Hc. simpl. split; [|split; [done|split; [done|lia]]].
    change (String c p = String c (upto_char "/" p +:+ String "/" q)).
    by rewrite <- Hq.
Qed.

(** The loop copies a first component without slash and goes on. *)
Lemma convert_loop_plain_then dirsep src q pre rest :
  no_char "/" src = true →
  (String.length src ≤ length rest)%nat →
  convert_loop dirsep (src +:+ q) (length pre) (pre ++ rest)
    = convert_loop dirsep q (length pre + String.length src)
        (pre ++ bytes src ++ drop (String.length src) rest).
Proof.
  revert pre rest. induction src as [|c src IH]; intros pre rest Hplain Hlen.
  - simpl. by rewrite Nat.add_0_r.
  - simpl in Hplain, Hlen. apply andb_true_iff in Hplain as [Hc Hsrc].
    apply negb_true_iff, bool_decide_eq_false_1 in Hc.
    change (String c src +:+ q) with (String c (src +:+ q)).
    cbn [convert_loop]. rewrite decide_False by done.
    rewrite poke_app by lia. cbn [mbind option_bind].
    replace (pre ++ Some c :: drop 1 rest)
      with ((pre ++ [Some c]) ++ drop 1 rest) by (by rewrite <- List.app_assoc).
    replace (S (length pre)) with (length (pre ++ [Some c]))
      by (rewrite length_app; simpl; lia).
    rewrite IH by (done || rewrite length_drop; lia).
    rewrite drop_drop, <- List.app_assoc, length_app. simpl.
    f_equal. lia.
Qed.

(** The start of the block once the write directory and a separator are
    in it. *)
Lemma fill_head dirsep w b :
  no_char NUL w = true →
  (String.length w + String.length dirsep < length b)%nat →
  ∃ r,
    (length r + String.length w + String.length dirsep + 1 = length b)%nat ∧
    ∀ (A : Type) (k : list (option ascii) → option A),
      (str ← poke b 0 NUL;
       str ← (str ← c_strcpy str 0 w; c_strcat str dirsep);
       k str) = k (bytes (w +:+ dirsep) ++ Some NUL :: r).
Proof.
  intros Hw Hlen.
  pose proof (poke_app [] b NUL) as Hpoke. cbn [app length] in Hpoke.
  set (b1 := Some NUL :: drop 1 b) in *.
  assert (Hb1 : length b1 = length b)
    by (subst b1; cbn [length]; rewrite length_drop; lia).
  pose proof (c_strcpy_app w [] b1) as Hcpy. cbn [app length] in Hcpy.
  set (r1 := Some NUL :: drop (S (String.length w)) b1) in *.
  assert (Hr1 : (length r1 = length b - String.length w)%nat)
    by (subst r1; cbn [length]; rewrite length_drop; lia).
  pose proof (c_strcpy_app dirsep (bytes w) r1) as Hcat.
  rewrite length_bytes in Hcat.
  exists (drop (S (String.length dirsep)) r1). split.
  { rewrite length_drop. lia. }
  intros A k. rewrite Hpoke by lia. cbn [mbind option_bind].
  rewrite Hcpy by lia. cbn [mbind option_bind].
  unfold c_strcat. subst r1. rewrite c_strlen_bytes by done.
  cbn [mbind option_bind]. rewrite Hcat by lia. cbn [mbind option_bind].
  by rewrite List.app_assoc, <- bytes_app.
Qed.

End Separators.

Section Truncation.

Local Open Scope list_scope.

Implicit Types (r : list (option ascii)) (x dirsep p : string).

Lemma String_length_append (str1 str2 : string) :
  String.length (str1 +:+ str2)
    = (String.length str1 + String.length str2)%nat.
Proof. by rewrite <- !length_bytes, bytes_app, length_app. Qed.

Lemma tail_overrun x r dirsep p :
  no_char NUL x = true →
  (length (bytes x ++ Some NUL :: r)
   ≤ String.length x + String.length p
     + count_char "/" p * String.length dirsep)%nat →
  (n ← c_strlen (bytes x ++ Some NUL :: r);
   '(i2, str) ← convert_loop dirsep p n (bytes x ++ Some NUL :: r);
   str ← poke str i2 NUL;
   str ← Some str;
   c_str str) = None.
Proof.
  intros Hx Hlen. rewrite c_strlen_bytes by done. cbn [mbind option_bind].
  destruct (convert_loop dirsep p _ _) as [[i2 b']|] eqn:Hloop; [|done].
  cbn [mbind option_bind].
  apply convert_loop_end in Hloop as (-> & Hb' & _).
  rewrite poke_outside; [done|]. rewrite Hb'. lia.
Qed.

Lemma tail_first_separator x r dirsep p :
  no_char NUL x = true → no_char NUL dirsep = true → no_char NUL p = true →
  no_char "/" p = false →
  (String.length x + String.length p
   + count_char "/" p * String.length dirsep
   < length (bytes x ++ Some NUL :: r))%nat →
  (n ← c_strlen (bytes x ++ Some NUL :: r);
   '(i2, str) ← convert_loop dirsep p n (bytes x ++ Some NUL :: r);
   str ← poke str i2 NUL;
   str ← Some str;
   c_str str) = Some (x +:+ upto_char "/" p +:+ dirsep).
Proof.
  intros Hx Hsep Hp Hslash Hlen.
  rewrite c_strlen_bytes by done. cbn [mbind option_bind].
  destruct (upto_char_split p Hslash) as (q & Hq & Hplain & Hcount & Hplen).
  set (c1 := upto_char "/" p) in *.
  assert (Hc1 : no_char NUL c1 = true).
  { rewrite Hq, no_char_app in Hp. by apply andb_true_iff in Hp as [? _]. }
  rewrite length_app, length_bytes in Hlen. cbn [length] in Hlen.
  rewrite Hq at 1. rewrite <- (length_bytes x).
  rewrite convert_loop_plain_then by (done || cbn [length]; lia).
  cbn [convert_loop]. rewrite decide_True by done.
  set (rest := drop (String.length c1) (Some NUL :: r)).
  assert (Hrest : (length rest = S (length r) - String.length c1)%nat)
    by (subst rest; by rewrite length_drop).
  pose proof (c_strcpy_app dirsep (bytes x ++ bytes c1) rest) as Hcpy.
  rewrite length_app, !length_bytes, <- List.app_assoc in Hcpy.
  rewrite length_bytes, Hcpy by lia. cbn [mbind option_bind].
  set (X := x +:+ c1 +:+ dirsep).
  set (r3 := drop (S (String.length dirsep)) rest).
  assert (HX : (bytes x ++ bytes c1) ++ bytes dirsep ++ Some NUL :: r3
               = (bytes X ++ [Some NUL]) ++ r3).
  { subst X. rewrite !bytes_app, <- !List.app_assoc. done. }
  rewrite HX. unfold strlen.
  set (n := S (String.length x + String.length c1 + String.length dirsep)).
  assert (Hn : n = length (bytes X ++ [Some NUL])).
  { subst n X. rewrite length_app, length_bytes. cbn [length].
    rewrite !String_length_append. lia. }
  set (B := (bytes X ++ [Some NUL]) ++ r3).
  assert (HB : (length B = String.length x + 1 + length r)%nat).
  { subst B r3. rewrite !length_app, length_drop, length_bytes. subst X.
    rewrite !String_length_append. cbn [length]. rewrite Hcount in Hlen. lia. }
  destruct (convert_loop_inside dirsep q n B) as [[i2 b'] Hloop].
  { subst n. rewrite HB. lia. }
  rewrite Hloop. cbn [mbind option_bind].
  apply convert_loop_end in Hloop as (-> & Hb' & Htake).
  rewrite poke_inside by (rewrite Hb', HB; subst n; lia).
  cbn [mbind option_bind].
  set (b'' := <[_ := Some NUL]> b').
  assert (Hb'' : b'' = (bytes X ++ [Some NUL]) ++ drop n b'').
  { rewrite <- (take_drop n b'') at 1. f_equal. subst b''.
    rewrite take_insert_ge by lia. rewrite Htake by lia. subst B.
    by rewrite Hn, take_app_length. }
  rewrite Hb'', <- List.app_assoc. cbn [app].
  apply c_str_bytes. subst X. by rewrite !no_char_app, Hx, Hc1, Hsep.
Qed.

End Truncation.

Section SlashPaths.

Context (P : Platform).

Lemma convertToDependentNotation_block (t : Z) (w p : string)
    (s : physfs_state) :
  writeDir s = Some w → (malloc s).1 = true →
  no_char NUL w = true → (0 < strlen (PHYSFS_getDirSeparator P))%nat →
  ∃ r,
    (strlen w + strlen (PHYSFS_getDirSeparator P) + strlen p
     + count_char "/" p * strlen (PHYSFS_getDirSeparator P)
     < length (bytes (w +:+ PHYSFS_getDirSeparator P) ++ Some NUL :: r)
     ↔ count_char "/" p < strlen w + strlen (PHYSFS_getDirSeparator P) + 1)%nat ∧
    convertToDependentNotation P t (Some w) p None s =
      match
        n ← c_strlen (bytes (w +:+ PHYSFS_getDirSeparator P) ++ Some NUL :: r);
        '(i2, str) ← convert_loop (PHYSFS_getDirSeparator P) p n
                       (bytes (w +:+ PHYSFS_getDirSeparator P) ++ Some NUL :: r);
        str ← poke str i2 NUL;
        str ← Some str;
        c_str str
      with
      | None => Faults
      | Some str => Returns (Some str) (malloc s).2
      end.
Proof.
  intros Hwd Hok Hw Hsep.
  unfold convertToDependentNotation. rewrite Hwd.
  destruct (malloc s) as [ok s1]. simpl in Hok. subst ok.
  cbv beta iota zeta. rewrite convert_allocSize_count.
  set (sep := PHYSFS_getDirSeparator P) in *.
  set (n := (if decide (1 < strlen sep)%nat then _ else _)).
  assert (Hn : (n = strlen p + strlen w + strlen sep + 1
                    + (strlen w + strlen sep)
                    + count_char "/" p * (strlen sep - 1))%nat).
  { subst n. case_decide; [done|].
    replace (strlen sep - 1)%nat with 0%nat by lia. lia. }
  clearbody n.
  destruct (fill_head sep w (replicate n None)) as (r & Hr & Hk).
  { done. }
  { rewrite length_replicate. unfold strlen in *. lia. }
  rewrite length_replicate in Hr. exists r. split.
  - rewrite length_app, length_bytes, String_length_append. cbn [length].
    unfold strlen in *. nia.
  - by rewrite Hk.
Qed.

(** X20: a path with a slash is cut at its first separator.  With the
    write directory [w], memory for the translation and fewer slashes in
    [p] than the length of [w] and of the separator plus one,
    [convertToDependentNotation] yields [w], a separator, the first
    component of [p] and a separator, and nothing of what follows;
    [PHYSFS_mkdir] hands that to the host. *)
Theorem mkdir_first_component (t : Z) (w p : string) (s : physfs_state) :
  writeDir s = Some w →
  no_char NUL w = true → no_char NUL (PHYSFS_getDirSeparator P) = true →
  no_char NUL p = true → no_char "/" p = false →
  (0 < strlen (PHYSFS_getDirSeparator P))%nat →
  (count_char "/" p < strlen w + strlen (PHYSFS_getDirSeparator P) + 1)%nat →
  (malloc s).1 = true →
  let str := w +:+ PHYSFS_getDirSeparator P +:+ upto_char "/" p
               +:+ PHYSFS_getDirSeparator P in
  convertToDependentNotation P t (Some w) p None s
    = Returns (Some str) (malloc s).2 ∧
  PHYSFS_mkdir P t p s
    = Returns (createDirs_dependent P (host_trace s) str)
        (set_host_trace (HostCreateDirs str :: host_trace s) (malloc s).2).
Proof.
  intros Hwd Hw Hsep Hp Hslash Hsep0 Hcount Hok str.
  destruct (convertToDependentNotation_block t w p s Hwd Hok Hw Hsep0)
    as (r & Hroom & Hconv).
  assert (Hx : no_char NUL (w +:+ PHYSFS_getDirSeparator P) = true)
    by (by rewrite no_char_app, Hw, Hsep).
  rewrite tail_first_separator in Hconv; try done.
  2:{ rewrite String_length_append. unfold strlen in *.
      apply Hroom in Hcount. lia. }
  rewrite String_append_assoc in Hconv. fold str in Hconv.
  split; [done|]. unfold PHYSFS_mkdir. rewrite Hwd, Hconv. cbn [bind].
  assert (Htrace : host_trace (malloc s).2 = host_trace s).
  { destruct (malloc_plan_only s) as (plan & ->). done. }
  by rewrite Htrace.
Qed.

(** X21: a path with many slashes overruns the block.  With the write
    directory [w], memory for the translation and at least as many slashes
    in [p] as the length of [w] and of the separator plus one,
    [convertToDependentNotation] writes past the end of the block it has
    allocated, and so do [PHYSFS_mkdir] and [PHYSFS_delete]. *)
Theorem translation_overrun (t : Z) (w p : string) (s : physfs_state) :
  writeDir s = Some w →
  no_char NUL w = true → no_char NUL (PHYSFS_getDirSeparator P) = true →
  (0 < strlen (PHYSFS_getDirSeparator P))%nat →
  (strlen w + strlen (PHYSFS_getDirSeparator P) + 1 ≤ count_char "/" p)%nat →
  (malloc s).1 = true →
  convertToDependentNotation P t (Some w) p None s = Faults ∧
  PHYSFS_mkdir P t p s = Faults ∧
  PHYSFS_delete P t p s = Faults.
Proof.
  intros Hwd Hw Hsep Hsep0 Hcount Hok.
  destruct (convertToDependentNotation_block t w p s Hwd Hok Hw Hsep0)
    as (r & Hroom & Hconv).
  assert (Hx : no_char NUL (w +:+ PHYSFS_getDirSeparator P) = true)
    by (by rewrite no_char_app, Hw, Hsep).
  rewrite tail_overrun in Hconv; try done.
  2:{ rewrite String_length_append. unfold strlen in *.
      destruct (decide (String.length w
                        + String.length (PHYSFS_getDirSeparator P)
                        + String.length p
                        + count_char "/" p
                          * String.length (PHYSFS_getDirSeparator P)
                        < length (bytes (w +:+ PHYSFS_getDirSeparator P)
                                    ++ Some NUL :: r))%nat) as [Hlt|]; [|lia].
      apply Hroom in Hlt. lia. }
  split; [done|]. unfold PHYSFS_mkdir, PHYSFS_delete.
  by rewrite Hwd, Hconv.
Qed.

End SlashPaths.

Lemma mkdir_first_component_witness :
  writeDir ready_w = Some "/w" ∧
  no_char NUL "/w" = true ∧
  no_char NUL (PHYSFS_getDirSeparator unix_host) = true ∧
  no_char NUL "maps/level1/boss" = true ∧
  no_char "/" "maps/level1/boss" = false ∧
  (0 < strlen (PHYSFS_getDirSeparator unix_host))%nat ∧
  (count_char "/" "maps/level1/boss"
   < strlen "/w" + strlen (PHYSFS_getDirSeparator unix_host) + 1)%nat ∧
  (malloc ready_w).1 = true ∧
  convertToDependentNotation unix_host 1 (Some "/w") "maps/level1/boss" None
    ready_w = Returns (Some "/w/maps/") (malloc ready_w).2 ∧
  PHYSFS_mkdir unix_host 1 "maps/level1/boss" ready_w
    = Returns (createDirs_dependent unix_host (host_trace ready_w) "/w/maps/")
        (set_host_trace (HostCreateDirs "/w/maps/" :: host_trace ready_w)
           (malloc ready_w).2).
Proof.
  do 5 (split; [reflexivity|]). split; [simpl; lia|]. split; [simpl; lia|].
  split; [reflexivity|].
  apply (mkdir_first_component unix_host 1 "/w" "maps/level1/boss" ready_w);
    try reflexivity; simpl; lia.
Defined.

Lemma translation_overrun_witness :
  writeDir ready_w = Some "/w" ∧
  no_char NUL "/w" = true ∧
  no_char NUL (PHYSFS_getDirSeparator unix_host) = true ∧
  (0 < strlen (PHYSFS_getDirSeparator unix_host))%nat ∧
  (strlen "/w" + strlen (PHYSFS_getDirSeparator unix_host) + 1
   ≤ count_char "/" "a/b/c/d/e")%nat ∧
  (malloc ready_w).1 = true ∧
  convertToDependentNotation unix_host 1 (Some "/w") "a/b/c/d/e" None ready_w
    = Faults ∧
  PHYSFS_mkdir unix_host 1 "a/b/c/d/e" ready_w = Faults ∧
  PHYSFS_delete unix_host 1 "a/b/c/d/e" ready_w = Faults.
Proof.
  do 3 (split; [reflexivity|]). split; [simpl; lia|]. split; [simpl; lia|].
  split; [reflexivity|].
  apply (translation_overrun unix_host 1 "/w" "a/b/c/d/e" ready_w);
    try reflexivity; simpl; lia.
Defined.

Section HostErrors.

Context (P : Platform).

(** X22: when the block for the translated path cannot be allocated,
    [PHYSFS_mkdir] and [PHYSFS_delete] return 0 with [OutOfMemory] for
    every path, and the host is asked nothing. *)
Theorem mkdir_out_of_memory (t : Z) (w p : string) (s : physfs_state) :
  writeDir s = Some w →
  (malloc s).1 = false →
  PHYSFS_mkdir P t p s
    = Returns 0 (__PHYSFS_setError t ERR_OUT_OF_MEMORY (malloc s).2) ∧
  PHYSFS_delete P t p s
    = Returns 0 (__PHYSFS_setError t ERR_OUT_OF_MEMORY (malloc s).2) ∧
  host_trace (__PHYSFS_setError t ERR_OUT_OF_MEMORY (malloc s).2)
    = host_trace s.
Proof.
  intros Hwd Hok.
  assert (Hconv : convertToDependentNotation P t (Some w) p None s
                  = Returns None
                      (__PHYSFS_setError t ERR_OUT_OF_MEMORY (malloc s).2)).
  { unfold convertToDependentNotation, BAIL. rewrite Hwd.
    destruct (malloc s) as [ok s1]. simpl in Hok. by subst ok. }
  unfold PHYSFS_mkdir, PHYSFS_delete. rewrite Hwd, Hconv. cbn [bind].
  do 2 (split; [done|]).
  destruct (setError_same t ERR_OUT_OF_MEMORY (malloc s).2)
    as (_&_&_&_&_&_&_&_&_& ->).
  destruct (malloc_plan_only s) as (plan & ->). done.
Qed.

(** X23: [PHYSFS_delete] passes on the host's refusal.  With the write
    directory [w], memory for the translation and a path [p] without a
    slash, when [remove] of the translated path does not return 0,
    [PHYSFS_delete] returns 0, and the caller's error is the text the host
    gives for its [errno], as far as it fits the slot. *)
Theorem delete_host_error (t : Z) (w p : string) (s : physfs_state) :
  writeDir s = Some w →
  no_char NUL w = true → no_char NUL (PHYSFS_getDirSeparator P) = true →
  no_char NUL p = true → no_char "/" p = true →
  (malloc s).1 = true →
  (libc_remove P (host_trace s) (w +:+ PHYSFS_getDirSeparator P +:+ p)).1 ≠ 0 →
  let str := w +:+ PHYSFS_getDirSeparator P +:+ p in
  let s1 := set_host_trace (HostRemove str :: host_trace s) (malloc s).2 in
  PHYSFS_delete P t p s
    = Returns 0 (__PHYSFS_setError t (libc_remove P (host_trace s) str).2 s1) ∧
  (slot_obtainable t s1 = true →
   (PHYSFS_getLastError t
      (__PHYSFS_setError t (libc_remove P (host_trace s) str).2 s1)).1
     = Some (store_errorString (libc_remove P (host_trace s) str).2)).
Proof.
  intros Hwd Hw Hsep Hp Hplain Hok Hrc str s1.
  assert (Htrace : host_trace (malloc s).2 = host_trace s).
  { destruct (malloc_plan_only s) as (plan & ->). done. }
  split; [|apply setError_collect].
  unfold PHYSFS_delete. rewrite Hwd.
  rewrite convertToDependentNotation_plain by done. cbn [bind].
  fold str. rewrite Htrace. fold s1. fold str in Hrc.
  destruct (libc_remove P (host_trace s) str) as [rc msg]. simpl in Hrc |- *.
  by destruct (Z.eqb_spec rc 0).
Qed.

End HostErrors.

Lemma mkdir_out_of_memory_witness :
  writeDir (set_malloc_plan [false] ready_w) = Some "/w" ∧
  (malloc (set_malloc_plan [false] ready_w)).1 = false ∧
  PHYSFS_mkdir unix_host 1 "saves" (set_malloc_plan [false] ready_w)
    = Returns 0
        (__PHYSFS_setError 1 ERR_OUT_OF_MEMORY
           (malloc (set_malloc_plan [false] ready_w)).2) ∧
  PHYSFS_delete unix_host 1 "saves" (set_malloc_plan [false] ready_w)
    = Returns 0
        (__PHYSFS_setError 1 ERR_OUT_OF_MEMORY
           (malloc (set_malloc_plan [false] ready_w)).2) ∧
  host_trace
    (__PHYSFS_setError 1 ERR_OUT_OF_MEMORY
       (malloc (set_malloc_plan [false] ready_w)).2)
    = host_trace (set_malloc_plan [false] ready_w).
Proof.
  split; [reflexivity|]. split; [reflexivity|].
  apply (mkdir_out_of_memory unix_host 1 "/w" "saves"
           (set_malloc_plan [false] ready_w)); reflexivity.
Defined.

Lemma delete_host_error_witness :
  writeDir ready_w = Some "/w" ∧
  no_char NUL "/w" = true ∧
  no_char NUL (PHYSFS_getDirSeparator closed_host) = true ∧
  no_char NUL "save.dat" = true ∧ no_char "/" "save.dat" = true ∧
  (malloc ready_w).1 = true ∧
  (libc_remove closed_host (host_trace ready_w)
     ("/w" +:+ PHYSFS_getDirSeparator closed_host +:+ "save.dat")).1 ≠ 0 ∧
  PHYSFS_delete closed_host 1 "save.dat" ready_w
    = Returns 0
        (__PHYSFS_setError 1 "Permission denied"
           (set_host_trace (HostRemove "/w/save.dat" :: host_trace ready_w)
              (malloc ready_w).2)).
Proof.
  do 6 (split; [reflexivity|]). split; [discriminate|].
  apply (delete_host_error closed_host 1 "/w" "save.dat" ready_w);
    try reflexivity. discriminate.
Defined.

(** ** The user directory, again *)

Section UserDir.

Context (P : Platform).

(** X24: what [PHYSFS_getUserDir] computes comes out from the second call
    on.  On a library with a base directory, a user name and memory, the
    first call returns the base directory; every later call, whatever the
    platform then says, returns the user directory the first call has
    worked out (the platform's, else [HOME], else
    base/users/name) and changes nothing. *)
Theorem getUserDir_memo (s : physfs_state) (bd u : string) :
  userDir_retval s = None →
  baseDir s = Some bd →
  __PHYSFS_platformGetUserName P = Some u →
  (malloc s).1 = true →
  let dir :=
    match __PHYSFS_platformGetUserDir P with
    | Some d => d
    | None =>
        match getenv_HOME P with
        | Some home => home
        | None =>
            bd +:+ PHYSFS_getDirSeparator P +:+ "users"
               +:+ PHYSFS_getDirSeparator P +:+ u
        end
    end in
  ∃ s1,
    PHYSFS_getUserDir P s = Returns (Some bd) s1 ∧
    ∀ P', PHYSFS_getUserDir P' s1 = Returns (Some dir) s1.
Proof.
  intros Hmemo Hbd Hu Hok dir. unfold PHYSFS_getUserDir at 1.
  rewrite Hmemo. subst dir.
  destruct (__PHYSFS_platformGetUserDir P) as [d|].
  { eexists. rewrite Hbd. split; [reflexivity|]. intros P'.
    by unfold PHYSFS_getUserDir. }
  destruct (getenv_HOME P) as [home|].
  { eexists. rewrite Hbd. split; [reflexivity|]. intros P'.
    by unfold PHYSFS_getUserDir. }
  rewrite Hbd, Hu.
  destruct (malloc_plan_only s) as (plan & Hs1).
  destruct (malloc s) as [ok s1]. simpl in Hok, Hs1. subst ok s1. simpl.
  eexists. rewrite Hbd. split; [reflexivity|]. intros P'.
  by unfold PHYSFS_getUserDir.
Qed.

(** X25: [PHYSFS_getUserDir] can dereference null.  When neither the
    platform nor [HOME] tells the user's directory and nothing is
    memoized, the call stops the process if the base directory is not set
    (the library is not initialized), and also if the user has no name and
    the block for the path is allocated. *)
Theorem getUserDir_null (s : physfs_state) :
  userDir_retval s = None →
  __PHYSFS_platformGetUserDir P = None →
  getenv_HOME P = None →
  baseDir s = None ∨
    (__PHYSFS_platformGetUserName P = None ∧ (malloc s).1 = true) →
  PHYSFS_getUserDir P s = Faults.
Proof.
  intros Hmemo Hdir Hhome Hnull. unfold PHYSFS_getUserDir.
  rewrite Hmemo, Hdir, Hhome.
  destruct (baseDir s) as [bd|]; [|done].
  destruct Hnull as [|[Hu Hok]]; [done|].
  destruct (malloc s) as [ok s1]. simpl in Hok. subst ok. by rewrite Hu.
Qed.

End UserDir.

Lemma getUserDir_memo_witness :
  userDir_retval ready = None ∧
  baseDir ready = Some "/app/bin" ∧
  __PHYSFS_platformGetUserName bare_host = Some "ryan" ∧
  (malloc ready).1 = true ∧
  ∃ s1,
    PHYSFS_getUserDir bare_host ready = Returns (Some "/app/bin") s1 ∧
    ∀ P', PHYSFS_getUserDir P' s1 = Returns (Some "/app/bin/users/ryan") s1.
Proof.
  do 4 (split; [reflexivity|]).
  apply (getUserDir_memo bare_host ready "/app/bin" "ryan"); reflexivity.
Defined.

Lemma getUserDir_null_witness :
  userDir_retval boot = None ∧
  __PHYSFS_platformGetUserDir bare_host = None ∧
  getenv_HOME bare_host = None ∧
  (baseDir boot = None ∨
     (__PHYSFS_platformGetUserName bare_host = None ∧ (malloc boot).1 = true)) ∧
  PHYSFS_getUserDir bare_host boot = Faults ∧
  PHYSFS_getUserDir anonymous_host ready = Faults.
Proof.
  do 3 (split; [reflexivity|]). split; [by left|]. split.
  - apply (getUserDir_null bare_host boot); try reflexivity. by left.
  - apply (getUserDir_null anonymous_host ready); try reflexivity. by right.
Defined.

(** ** File handles *)


